(** * BloatBuster: the classification and command-generation engine

    A shallow embedding of the package-list normaliser, the classifier, the
    display grouping, the selection handlers and the command synthesiser of
    BloatBuster ([utils/packageUtils.ts], [App.tsx], [components/PackageList.tsx]),
    followed by the properties of the specification stated over it.

    Conventions of the embedding.
    - A JavaScript string is a sequence of UTF-16 code units.  It is modelled
      as a Rocq [string] whose characters are the code units U+0000..U+00FF
      (package identifiers are ASCII).  White space and lower-casing are the
      ECMAScript ones restricted to that range.
    - [Set<string>] is [gset string], [Map<string, V>] used for lookup only is
      [gmap string V]; a [Map] whose iteration order is observable is an
      association list in insertion order.
    - Arrays are lists; [push] appends at the end.
    - [a || b] on possibly-undefined strings is [JS.or]: the empty string and
      [undefined] are both falsy. *)

From Stdlib Require Import ZArith Ascii.
From stdpp Require Import gmap strings list sorting.

Local Open Scope stdpp_scope.

(** ** ECMAScript string built-ins used by the program *)

Module JS.

Definition LF : ascii := "010"%char.

(** [WhiteSpace] and [LineTerminator] code points below U+0100:
    TAB, LF, VT, FF, CR, SP and NBSP. *)
Definition isWhiteSpace (c : ascii) : bool :=
  match c with
  | "009" | "010" | "011" | "012" | "013" | " " | "160" => true
  | _ => false
  end%char.

Fixpoint trimStart (s : string) : string :=
  match s with
  | "" => ""
  | String c s' => if isWhiteSpace c then trimStart s' else s
  end.

Fixpoint trimEnd (s : string) : string :=
  match s with
  | "" => ""
  | String c s' =>
      match trimEnd s' with
      | "" => if isWhiteSpace c then "" else String c ""
      | r => String c r
      end
  end.

(** [String.prototype.trim] *)
Definition trim (s : string) : string := trimEnd (trimStart s).

(** [s.split("\n")]: never empty, [""] splits into [[""]]. *)
Fixpoint split_lines (s : string) : list string :=
  match s with
  | "" => [""]
  | String c s' =>
      if Ascii.eqb c LF then "" :: split_lines s'
      else match split_lines s' with
           | [] => [String c ""]
           | l :: ls => String c l :: ls
           end
  end.

(** [arr.join("\n")] *)
Fixpoint join_lines (l : list string) : string :=
  match l with
  | [] => ""
  | [x] => x
  | x :: rest => x +:+ String LF (join_lines rest)
  end.

(** [s.startsWith(p)] *)
Definition startsWith (s p : string) : bool := String.prefix p s.

(** [s.slice(n)] for a non-negative [n]: drops the first [n] code units. *)
Fixpoint slice (n : nat) (s : string) : string :=
  match n, s with
  | O, _ => s
  | S _, "" => ""
  | S n', String _ s' => slice n' s'
  end.

(** Lower-casing of one code unit below U+0100: A-Z, and the Latin-1
    capitals U+00C0..U+00DE except the multiplication sign U+00D7. *)
Definition lowerUnit (c : ascii) : ascii :=
  let n := N_of_ascii c in
  if ((65 <=? n) && (n <=? 90) || (192 <=? n) && (n <=? 222) && negb (n =? 215))%N
  then ascii_of_N (n + 32) else c.

Fixpoint toLowerCase (s : string) : string :=
  match s with
  | "" => ""
  | String c s' => String (lowerUnit c) (toLowerCase s')
  end.

(** Truthiness of a string value: only [""] is falsy. *)
Definition truthy (s : string) : Prop := s ≠ "".

#[global] Instance truthy_dec s : Decision (truthy s).
Proof. unfold truthy. apply _. Defined.

(** [a || b] where both sides may be [undefined]. *)
Definition or (a b : option string) : option string :=
  match a with
  | Some s => if decide (truthy s) then a else b
  | None => b
  end.

(** [a || d] where the right operand is a string. *)
Definition or_str (a : option string) (d : string) : string :=
  match a with
  | Some s => if decide (truthy s) then s else d
  | None => d
  end.

(** [Array.prototype.sort(compareFn)].  The engine's algorithm is
    unspecified but the sort is stable (ECMAScript 2019); for a consistent
    comparator every stable sort returns the same array, so a stable
    insertion sort stands for it.  [compareFn a b <= 0] keeps [a] before
    [b]. *)
Fixpoint sort_insert {A} (compareFn : A -> A -> Z) (x : A) (l : list A)
    : list A :=
  match l with
  | [] => [x]
  | y :: l' =>
      if (compareFn x y <=? 0)%Z then x :: y :: l'
      else y :: sort_insert compareFn x l'
  end.

Definition sort {A} (compareFn : A -> A -> Z) (l : list A) : list A :=
  foldr (sort_insert compareFn) [] l.

(** [s.includes(t)]: [t] occurs in [s] as a run of consecutive code units. *)
Fixpoint includes (s t : string) : bool :=
  startsWith s t
  || match s with
     | "" => false
     | String _ s' => includes s' t
     end.

(** [encodeURIComponent(s)] on code units below U+0100.  A code unit of
    the unescaped set (letters, digits and [-_.!~*'()]) stands for itself;
    any other is written as the octets of its UTF-8 encoding, each as
    [%] and two upper-case hexadecimal digits. *)
Definition isUnescaped (c : ascii) : bool :=
  let n := N_of_ascii c in
  ((65 <=? n) && (n <=? 90) || (97 <=? n) && (n <=? 122)
   || (48 <=? n) && (n <=? 57))%N
  || match c with
     | "-" | "_" | "." | "!" | "~" | "*" | "'" | "(" | ")" => true
     | _ => false
     end%char.

Definition hexDigit (n : N) : ascii :=
  ascii_of_N (if (n <? 10)%N then 48 + n else 55 + n).

Definition percent (octet : N) : string :=
  String "%" (String (hexDigit (octet / 16)) (String (hexDigit (octet mod 16)) "")).

Definition encodeUnit (c : ascii) : string :=
  let n := N_of_ascii c in
  if isUnescaped c then String c ""
  else if (n <? 128)%N then percent n
  else percent (192 + n / 64) +:+ percent (128 + n mod 64).

Fixpoint encodeURIComponent (s : string) : string :=
  match s with
  | "" => ""
  | String c s' => encodeUnit c +:+ encodeURIComponent s'
  end.

End JS.

(** ** utils/packageUtils.ts: the input normaliser *)

Definition stripPrefix (line : string) : string :=
  if JS.startsWith line "package:" then JS.slice 8 line else line.

Definition parsePackageList (input : string) : list string :=
  filter JS.truthy
    (stripPrefix <$>
       filter JS.truthy (JS.trim <$> JS.split_lines (JS.trim input))).

(** ** types.ts *)

Inductive SafetyRating := safe | caution | risky.

Module PackageInfo.
Record t := mk {
  appID : string;
  appName : option string;
  description : option string;
}.
End PackageInfo.

(** [PackageData = string | PackageInfo] *)
Inductive PackageData :=
| PkgString (s : string)
| PkgInfo (item : PackageInfo.t).

Record DeviceData := {
  recognisedPackages : list string;
  bloatwarePackages : list PackageData;
}.

Record DetectedPackage := {
  packageName : string;
  appName : string;
  description : string;
  safetyRating : option SafetyRating;
  removalImpact : option string;
  packageCategory : option string;
  category : string;
  selected : bool;
}.

Definition set_selected (b : bool) (p : DetectedPackage) : DetectedPackage :=
  {| packageName := packageName p; appName := appName p;
     description := description p; safetyRating := safetyRating p;
     removalImpact := removalImpact p; packageCategory := packageCategory p;
     category := category p; selected := b |}.

#[global] Instance SafetyRating_eq_dec : EqDecision SafetyRating.
Proof. solve_decision. Defined.
#[global] Instance DetectedPackage_eq_dec : EqDecision DetectedPackage.
Proof. solve_decision. Defined.

(** ** data/metadata.ts *)

Module Metadata.
(** Modelled from the spec: the record [getPackageMetadata] returns, whose
    declaration in data/metadata.ts is missing.  It is the PackageMetadata
    enrichment of the data model, with [appName], [description],
    [safetyRating], [removalImpact] and [category]; every field may be
    absent, as the optional chaining at the use sites allows. *)
Record t := mk {
  appName : option string;
  description : option string;
  safetyRating : option SafetyRating;
  removalImpact : option string;
  category : option string;
}.
End Metadata.

(** ** utils/packageUtils.ts: the classifier *)

(** The file-local [PackageMetadata] interface. *)
Module PackageMetadata.
Record t := mk {
  appName : string;
  description : string;
}.
End PackageMetadata.

Definition BRAND_PREFIXES : list string :=
  [ "com.samsung."; "com.skms."; "com.sds."; "com.sec."; "com.xiaomi.";
    "com.miui."; "com.mi."; "com.huawei."; "com.oppo."; "com.vivo.";
    "com.oneplus."; "com.google."; "com.lge."; "com.motorola."; "com.asus.";
    "com.sony."; "com.nokia."; "com.facebook."; "com.hihonor." ].

Definition CHIPSET_PREFIXES : list string :=
  [ "com.qualcomm."; "com.qti."; "vendor.qti."; "com.mediatek.";
    "org.codeaurora." ].

Definition categorisePackage (packageName : string) : string :=
  let lower := JS.toLowerCase packageName in
  if existsb (fun p => JS.startsWith lower p) BRAND_PREFIXES then "brand"
  else if existsb (fun p => JS.startsWith lower p) CHIPSET_PREFIXES then "chipset"
  else "generic".

Definition RECOGNISED_FALLBACK : string :=
  "Recognised as a legitimate application. Not identified as bloatware, but can be removed if desired.".

Definition UNRECOGNISED_FALLBACK : string :=
  "Unrecognised package - not in our verified database. Research carefully before removing.".

Definition packageId (item : PackageData) : string :=
  match item with
  | PkgString s => s
  | PkgInfo i => PackageInfo.appID i
  end.

(** State of the first loop of [detectBloatware]. *)
Record BloatIndex := {
  bloatwarePackageSet : gset string;
  bloatwareMetadataMap : gmap string PackageMetadata.t;
}.

(** The object stored in [bloatwareMetadataMap] for a [PackageInfo] item. *)
Definition info_metadata (packageId : string) (item : PackageInfo.t)
    : PackageMetadata.t :=
  PackageMetadata.mk
    (JS.or_str (PackageInfo.appName item) packageId)
    (JS.or_str (PackageInfo.description item) "").

Definition index_step (ix : BloatIndex) (item : PackageData) : BloatIndex :=
  let packageId := packageId item in
  let set' := bloatwarePackageSet ix ∪ {[ packageId ]} in
  match item with
  | PkgString _ =>
      {| bloatwarePackageSet := set';
         bloatwareMetadataMap := bloatwareMetadataMap ix |}
  | PkgInfo i =>
      {| bloatwarePackageSet := set';
         bloatwareMetadataMap :=
           <[ packageId := info_metadata packageId i ]>
             (bloatwareMetadataMap ix) |}
  end.

Definition build_index (bloatwarePackages : list PackageData) : BloatIndex :=
  fold_left index_step bloatwarePackages
    {| bloatwarePackageSet := ∅; bloatwareMetadataMap := ∅ |}.

(** State of the main loop of [detectBloatware]. *)
Record DetectState := {
  detected : list DetectedPackage;
  processedPackages : gset string;
}.

Section Classifier.

(** [getPackageMetadata] of data/metadata.ts: the optional side table. *)
Variable getPackageMetadata : string -> option Metadata.t.

(** [meta?.field] *)
Definition opt_field {A} (f : Metadata.t -> option A)
    (meta : option Metadata.t) : option A :=
  meta ≫= f.

Definition classify_recognised (packageName : string) : DetectedPackage :=
  let meta := getPackageMetadata packageName in
  let appName := JS.or_str (opt_field Metadata.appName meta) packageName in
  let description :=
    JS.or_str (opt_field Metadata.description meta) RECOGNISED_FALLBACK in
  {| packageName := packageName; appName := appName;
     description := description; category := "system"; selected := false;
     safetyRating := opt_field Metadata.safetyRating meta;
     removalImpact := opt_field Metadata.removalImpact meta;
     packageCategory := opt_field Metadata.category meta |}.

Definition classify_bloatware (ix : BloatIndex) (packageName : string)
    : DetectedPackage :=
  let meta := getPackageMetadata packageName in
  let bloatMeta := bloatwareMetadataMap ix !! packageName in
  let appName :=
    JS.or_str
      (JS.or (opt_field Metadata.appName meta)
             (PackageMetadata.appName <$> bloatMeta))
      packageName in
  let description :=
    JS.or_str
      (JS.or (opt_field Metadata.description meta)
             (PackageMetadata.description <$> bloatMeta))
      "" in
  {| packageName := packageName; appName := appName;
     description := description;
     category := categorisePackage packageName; selected := true;
     safetyRating := opt_field Metadata.safetyRating meta;
     removalImpact := opt_field Metadata.removalImpact meta;
     packageCategory := opt_field Metadata.category meta |}.

Definition classify_unknown (packageName : string) : DetectedPackage :=
  let meta := getPackageMetadata packageName in
  let appName := JS.or_str (opt_field Metadata.appName meta) packageName in
  let description :=
    JS.or_str (opt_field Metadata.description meta) UNRECOGNISED_FALLBACK in
  {| packageName := packageName; appName := appName;
     description := description; category := "suspicious"; selected := false;
     safetyRating := opt_field Metadata.safetyRating meta;
     removalImpact := opt_field Metadata.removalImpact meta;
     packageCategory := opt_field Metadata.category meta |}.

(** The three branches of the loop body, for an identifier not yet seen. *)
Definition classify (recognisedPackageSet : gset string) (ix : BloatIndex)
    (packageName : string) : DetectedPackage :=
  if decide (packageName ∈ recognisedPackageSet)
  then classify_recognised packageName
  else if decide (packageName ∈ bloatwarePackageSet ix)
  then classify_bloatware ix packageName
  else classify_unknown packageName.

(** One iteration of [for (const packageName of installedPackages)]. *)
Definition detect_step (recognisedPackageSet : gset string) (ix : BloatIndex)
    (st : DetectState) (packageName : string) : DetectState :=
  if decide (packageName ∈ processedPackages st) then st
  else
    {| detected := detected st ++ [classify recognisedPackageSet ix packageName];
       processedPackages := processedPackages st ∪ {[ packageName ]} |}.

Definition detectBloatware (installedPackages : list string)
    (deviceData : DeviceData) : list DetectedPackage :=
  let recognisedPackageSet : gset string :=
    list_to_set (recognisedPackages deviceData) in
  let ix := build_index (bloatwarePackages deviceData) in
  detected
    (fold_left (detect_step recognisedPackageSet ix) installedPackages
       {| detected := []; processedPackages := ∅ |}).

End Classifier.

(** ** utils/packageUtils.ts: grouping for display *)

Definition categoryLabels : gmap string string :=
  list_to_map
    [ ("brand", "Brand-Specific Bloatware");
      ("chipset", "Chipset-Specific Bloatware");
      ("generic", "Generic Bloatware");
      ("suspicious", "Suspicious Packages");
      ("system", "Other Installed Apps") ].

Definition categoryOrderMap : gmap string Z :=
  list_to_map
    [ ("brand", 0%Z); ("chipset", 1%Z); ("generic", 2%Z);
      ("suspicious", 3%Z); ("system", 4%Z) ].

Definition DEFAULT_CATEGORY_PRIORITY : Z := 999.

(** [categoryOrderMap.get(c) ?? DEFAULT_CATEGORY_PRIORITY] *)
Definition category_priority (c : string) : Z :=
  default DEFAULT_CATEGORY_PRIORITY (categoryOrderMap !! c).

(** The comparator handed to [sort]. *)
Definition compare_priority (a b : DetectedPackage) : Z :=
  (category_priority (category a) - category_priority (category b))%Z.

(** [categoryLabels[c] || c].  Property names inherited from
    [Object.prototype] are not modelled: [c] is looked up among the own keys. *)
Definition category_label (c : string) : string :=
  JS.or_str (categoryLabels !! c) c.

(** [Map<string, DetectedPackage[]>] with its insertion order. *)
Module Groups.
Definition t := list (string * list DetectedPackage).

Fixpoint get (g : t) (k : string) : option (list DetectedPackage) :=
  match g with
  | [] => None
  | (k', v) :: g' => if decide (k' = k) then Some v else get g' k
  end.

Definition has (g : t) (k : string) : bool :=
  match get g k with Some _ => true | None => false end.

(** [set] keeps the position of an existing key and appends a new one. *)
Fixpoint set (g : t) (k : string) (v : list DetectedPackage) : t :=
  match g with
  | [] => [(k, v)]
  | (k', v') :: g' =>
      if decide (k' = k) then (k', v) :: g' else (k', v') :: set g' k v
  end.

(** [g.get(k)!.push(x)]: the array stored under [k] grows in place. *)
Definition push (g : t) (k : string) (x : DetectedPackage) : t :=
  match get g k with
  | Some v => set g k (v ++ [x])
  | None => g
  end.
End Groups.

Definition group_step (groups : Groups.t) (pkg : DetectedPackage) : Groups.t :=
  let label := category_label (category pkg) in
  let groups := if Groups.has groups label then groups
                else Groups.set groups label [] in
  Groups.push groups label pkg.

Definition groupByCategory (packages : list DetectedPackage) : Groups.t :=
  let sorted := JS.sort compare_priority packages in
  fold_left group_step sorted [].

(** ** components/PackageList.tsx: the selection handlers

    A handler either calls [onPackagesChange] with a new collection ([Some]),
    or returns without calling it ([None]). *)

Definition handleToggleAll (packages : list DetectedPackage)
    (category : string) (target : bool) : option (list DetectedPackage) :=
  let groups := groupByCategory packages in
  let catPkgs := default [] (Groups.get groups category) in
  if (length catPkgs =? 0)%nat then None
  else
    let names : gset string := list_to_set (packageName <$> catPkgs) in
    let needsUpdate :=
      existsb (fun p => negb (eqb (selected p) target)) catPkgs in
    if negb needsUpdate then None
    else
      Some ((fun p =>
               if bool_decide (packageName p ∈ names)
                  && negb (eqb (selected p) target)
               then set_selected target p else p) <$> packages).

Definition handleTogglePackage (packages : list DetectedPackage)
    (name : string) : option (list DetectedPackage) :=
  Some ((fun p =>
           if decide (packageName p = name)
           then set_selected (negb (selected p)) p else p) <$> packages).

Definition handleSelectAll (packages : list DetectedPackage)
    : option (list DetectedPackage) :=
  Some (set_selected true <$> packages).

Definition handleDeselectAll (packages : list DetectedPackage)
    : option (list DetectedPackage) :=
  Some (set_selected false <$> packages).

(** The collection the application holds after a handler ran:
    [onPackagesChange] is [setDetectedPackages]. *)
Definition after_handler (packages : list DetectedPackage)
    (r : option (list DetectedPackage)) : list DetectedPackage :=
  default packages r.

(** ** App.tsx: command synthesis *)

Record Summary := {
  commands : list string;
  selectedCount : nat;
  bloatwareCount : nat;
  suspiciousCount : nat;
  systemCount : nat;
}.

Definition package_commands (pkg : DetectedPackage) : list string :=
  [ "pm disable-user --user 0 " +:+ packageName pkg;
    "pm clear --user 0 " +:+ packageName pkg;
    "pm uninstall --user 0 " +:+ packageName pkg ].

(** One iteration of [for (const pkg of detectedPackages)]. *)
Definition summary_step (acc : Summary) (pkg : DetectedPackage) : Summary :=
  let acc :=
    if selected pkg then
      {| commands := commands acc ++ package_commands pkg;
         selectedCount := S (selectedCount acc);
         bloatwareCount := bloatwareCount acc;
         suspiciousCount := suspiciousCount acc;
         systemCount := systemCount acc |}
    else acc in
  if decide (category pkg = "suspicious") then
    {| commands := commands acc; selectedCount := selectedCount acc;
       bloatwareCount := bloatwareCount acc;
       suspiciousCount := S (suspiciousCount acc);
       systemCount := systemCount acc |}
  else if decide (category pkg = "system") then
    {| commands := commands acc; selectedCount := selectedCount acc;
       bloatwareCount := bloatwareCount acc;
       suspiciousCount := suspiciousCount acc;
       systemCount := S (systemCount acc) |}
  else
    {| commands := commands acc; selectedCount := selectedCount acc;
       bloatwareCount := S (bloatwareCount acc);
       suspiciousCount := suspiciousCount acc;
       systemCount := systemCount acc |}.

(** The body of the [useMemo] that derives the commands and the counters. *)
Definition summarise (detectedPackages : list DetectedPackage) : Summary :=
  fold_left summary_step detectedPackages
    {| commands := []; selectedCount := 0; bloatwareCount := 0;
       suspiciousCount := 0; systemCount := 0 |}.

(** ** App.tsx: the detection handler *)

Record AppState := {
  packageInput : string;
  detectedPackages : list DetectedPackage;
  error : option string;
  isProcessing : bool;
  currentStep : nat;
}.

Definition initialState : AppState :=
  {| packageInput := ""; detectedPackages := []; error := None;
     isProcessing := false; currentStep := 1 |}.

(** What a run of the handler does, in order: the state setters it calls and
    the calls to the classifier. *)
Inductive Action :=
| SetError (e : option string)
| SetIsProcessing (b : bool)
| CallDetectBloatware (installedPackages : list string)
| SetDetectedPackages (l : list DetectedPackage)
| SetCurrentStep (n : nat).

Definition apply_action (st : AppState) (a : Action) : AppState :=
  match a with
  | SetError e =>
      {| packageInput := packageInput st; detectedPackages := detectedPackages st;
         error := e; isProcessing := isProcessing st;
         currentStep := currentStep st |}
  | SetIsProcessing b =>
      {| packageInput := packageInput st; detectedPackages := detectedPackages st;
         error := error st; isProcessing := b; currentStep := currentStep st |}
  | CallDetectBloatware _ => st
  | SetDetectedPackages l =>
      {| packageInput := packageInput st; detectedPackages := l;
         error := error st; isProcessing := isProcessing st;
         currentStep := currentStep st |}
  | SetCurrentStep n =>
      {| packageInput := packageInput st; detectedPackages := detectedPackages st;
         error := error st; isProcessing := isProcessing st; currentStep := n |}
  end.

Definition run_actions (st : AppState) (l : list Action) : AppState :=
  fold_left apply_action l st.

Definition is_classifier_call (a : Action) : bool :=
  match a with CallDetectBloatware _ => true | _ => false end.

Definition is_collection_write (a : Action) : bool :=
  match a with SetDetectedPackages _ => true | _ => false end.

Section App.

Variable getPackageMetadata : string -> option Metadata.t.
(** [bloatwareData] of data/index.ts: the reference database. *)
Variable bloatwareData : DeviceData.

(** The trace of [handleDetectBloatware]; the two awaited delays and the
    scroll into view leave the state alone and are not shown.  The
    classifier is total here, so the [catch] branch is never entered; the
    [finally] block closes the [try]. *)
Definition handleDetectBloatware_trace (st : AppState) : list Action :=
  [SetError None] ++
  if decide (JS.truthy (JS.trim (packageInput st))) then
    [SetIsProcessing true] ++
    (let installedPackages := parsePackageList (packageInput st) in
     if (length installedPackages =? 0)%nat then
       [SetError (Some "No valid packages found in the input");
        SetIsProcessing false]
     else
       let detected :=
         detectBloatware getPackageMetadata installedPackages bloatwareData in
       [CallDetectBloatware installedPackages;
        SetDetectedPackages detected;
        SetCurrentStep 2]) ++
    [SetIsProcessing false]
  else
    [SetError (Some "Please paste your package list")].

Definition handleDetectBloatware (st : AppState) : AppState :=
  run_actions st (handleDetectBloatware_trace st).

End App.

(** ** components/PackageList.tsx: search, counters and expanded groups *)

Definition getGoogleSearchUrl (pkg : string) : string :=
  "https://www.google.com/search?q="
  +:+ JS.encodeURIComponent ("android " +:+ pkg +:+ " package").

(** The test of [filterPackages] on one entry, for a lower-cased term. *)
Definition matches_search (search : string) (p : DetectedPackage) : bool :=
  JS.includes (JS.toLowerCase (packageName p)) search
  || JS.includes (JS.toLowerCase (appName p)) search
  || JS.includes (JS.toLowerCase (description p)) search.

Definition filterPackages (packages : list DetectedPackage) (term : string)
    : list DetectedPackage :=
  if decide (JS.truthy (JS.trim term)) then
    let search := JS.toLowerCase (JS.trim term) in
    filter (fun p => matches_search search p = true) packages
  else packages.

(** [Map<string, number>] with its insertion order. *)
Module CountMap.
Definition t := list (string * nat).

Fixpoint get (m : t) (k : string) : option nat :=
  match m with
  | [] => None
  | (k', v) :: m' => if decide (k' = k) then Some v else get m' k
  end.

Fixpoint set (m : t) (k : string) (v : nat) : t :=
  match m with
  | [] => [(k, v)]
  | (k', v') :: m' =>
      if decide (k' = k) then (k', v) :: m' else (k', v') :: set m' k v
  end.
End CountMap.

(** [setSearchTerms(prev => ({ ...prev, [category]: value }))] *)
Definition handleSearchChange (prev : gmap string string)
    (category value : string) : gmap string string :=
  <[ category := value ]> prev.

(** [debouncedSearchTerms[cat] || ""] *)
Definition search_term (debouncedSearchTerms : gmap string string)
    (cat : string) : string :=
  JS.or_str (debouncedSearchTerms !! cat) "".

(** [for (const [cat, pkgs] of groups.entries()) filtered.set(cat, ...)] *)
Definition filteredPackagesByCategory (groups : Groups.t)
    (debouncedSearchTerms : gmap string string) : Groups.t :=
  fold_left
    (fun filtered '(cat, pkgs) =>
       Groups.set filtered cat
         (filterPackages pkgs (search_term debouncedSearchTerms cat)))
    groups [].

Definition selectedCountByCategory (groups : Groups.t) : CountMap.t :=
  fold_left
    (fun countMap '(cat, pkgs) =>
       CountMap.set countMap cat
         (length (filter (fun pkg => selected pkg = true) pkgs)))
    groups [].

(** [selectedCountByCategory.get(category) || 0] *)
Definition category_selected_count (countMap : CountMap.t) (category : string)
    : nat :=
  default 0 (CountMap.get countMap category).

Definition totalSelected (packages : list DetectedPackage) : nat :=
  length (filter (fun p => selected p = true) packages).

(** [Array.from(groups.keys()).filter((k) => k !== "Other Installed Apps")] *)
Definition categoryKeys (groups : Groups.t) : list string :=
  filter (fun k => k ≠ "Other Installed Apps") groups.*1.

(** The updater the effect on [categoryKeys] hands to
    [setExpandedCategories]. *)
Definition expand_new_categories (categoryKeys prev : list string)
    : list string :=
  let newCategories := filter (fun k => k ∉ prev) categoryKeys in
  if (0 <? length newCategories)%nat then prev ++ newCategories else prev.

(** ** App.tsx: what is rendered, and CommandsDisplay *)

(** [currentStep === 2 && detectedPackages.length > 0] *)
Definition results_shown (st : AppState) : bool :=
  (currentStep st =? 2)%nat && (0 <? length (detectedPackages st))%nat.


(** [commands.join("\n")], the text put on the clipboard. *)
Definition commandsText (commands : list string) : string :=
  JS.join_lines commands.


(** [selectedCount > 0 && <CommandsDisplay ... />], which itself returns
    [null] when [!commands.length]. *)
Definition commands_shown (s : Summary) : bool :=
  (0 <? selectedCount s)%nat && negb (length (commands s) =? 0)%nat.

(** ** Vocabulary of the specification *)

Module Spec.

(** The string begins with a white-space code unit. *)
Definition leading_ws (s : string) : bool :=
  match s with
  | "" => false
  | String c _ => JS.isWhiteSpace c
  end.

(** The string ends with a white-space code unit. *)
Fixpoint trailing_ws (s : string) : bool :=
  match s with
  | "" => false
  | String c "" => JS.isWhiteSpace c
  | String _ s' => trailing_ws s'
  end.

(** Every code unit is white space. *)
Fixpoint blank (s : string) : bool :=
  match s with
  | "" => true
  | String c s' => JS.isWhiteSpace c && blank s'
  end.

(** The string contains a line feed. *)
Fixpoint has_LF (s : string) : bool :=
  match s with
  | "" => false
  | String c s' => Ascii.eqb c JS.LF || has_LF s'
  end.

(** [p] is an initial segment of [s]. *)
Definition begins_with (s p : string) : Prop := exists rest, s = p +:+ rest.

(** A clean package identifier, as the normaliser's contract words it:
    non-empty, no white space at either end, no ["package:"] in front. *)
Definition clean (x : string) : Prop :=
  x ≠ "" /\ leading_ws x = false /\ trailing_ws x = false
  /\ ~ begins_with x "package:".

(** The distinct elements of a list, each at its first occurrence. *)
Fixpoint first_seen (l : list string) : list string :=
  match l with
  | [] => []
  | x :: l' => x :: filter (fun y => y ≠ x) (first_seen l')
  end.

(** The elements of [l] that are not in [seen], each at its first
    occurrence: what a loop guarded by a set of processed items keeps. *)
Fixpoint first_unseen (seen : gset string) (l : list string) : list string :=
  match l with
  | [] => []
  | x :: l' =>
      if decide (x ∈ seen) then first_unseen seen l'
      else x :: first_unseen (seen ∪ {[ x ]}) l'
  end.

(** The first source of a precedence chain that is present and not the
    empty string, or else the final fallback. *)
Fixpoint first_non_empty (sources : list (option string)) (fallback : string)
    : string :=
  match sources with
  | [] => fallback
  | Some s :: rest => if decide (s = "") then first_non_empty rest fallback else s
  | None :: rest => first_non_empty rest fallback
  end.

(** An empty string read as an absent value. *)
Definition blank_to_absent (o : option string) : option string :=
  match o with
  | Some s => if decide (s = "") then None else Some s
  | None => None
  end.

Definition the_five_categories : list string :=
  ["brand"; "chipset"; "generic"; "suspicious"; "system"].

(** The trimmed lines that survive the first [filter(Boolean)]. *)
Definition kept_lines (ls : list string) : list string :=
  filter JS.truthy (JS.trim <$> ls).

(** The lines of the raw input that carry an identifier: trimmed, not
    blank and not a bare ["package:"]. *)
Definition payload_lines (input : string) : list string :=
  filter (fun t => t ≠ "" /\ t ≠ "package:")
    (JS.trim <$> JS.split_lines input).

(** The record the bloatware list carries for an identifier: the last
    [PackageInfo] item with that [appID], if any ([Map.set] overwrites). *)
Fixpoint last_info (l : list PackageData) (n : string)
    : option PackageInfo.t :=
  match l with
  | [] => None
  | PkgString _ :: l' => last_info l' n
  | PkgInfo i :: l' =>
      match last_info l' n with
      | Some j => Some j
      | None => if decide (PackageInfo.appID i = n) then Some i else None
      end
  end.

(** A database and a metadata table in which every empty [appName] and
    [description] has been removed. *)
Definition erase_info (i : PackageInfo.t) : PackageInfo.t :=
  PackageInfo.mk (PackageInfo.appID i)
    (blank_to_absent (PackageInfo.appName i))
    (blank_to_absent (PackageInfo.description i)).

Definition erase_item (item : PackageData) : PackageData :=
  match item with
  | PkgString s => PkgString s
  | PkgInfo i => PkgInfo (erase_info i)
  end.

Definition erase_db (db : DeviceData) : DeviceData :=
  {| recognisedPackages := recognisedPackages db;
     bloatwarePackages := erase_item <$> bloatwarePackages db |}.

Definition erase_metadata (m : Metadata.t) : Metadata.t :=
  Metadata.mk (blank_to_absent (Metadata.appName m))
    (blank_to_absent (Metadata.description m))
    (Metadata.safetyRating m) (Metadata.removalImpact m)
    (Metadata.category m).

Definition erase_lookup (getPackageMetadata : string -> option Metadata.t)
    : string -> option Metadata.t :=
  fun n => erase_metadata <$> getPackageMetadata n.

(** Membership of a category, and of none of the five. *)
Definition in_category (c : string) (p : DetectedPackage) : Prop :=
  category p = c.
Definition uncategorised (p : DetectedPackage) : Prop :=
  category p ∉ the_five_categories.

#[global] Instance in_category_dec c p : Decision (in_category c p).
Proof. unfold in_category. apply _. Defined.
#[global] Instance uncategorised_dec p : Decision (uncategorised p).
Proof. unfold uncategorised. apply _. Defined.

(** The label under which an entry is displayed. *)
Definition label_of (p : DetectedPackage) : string :=
  category_label (category p).

(** A display group: absent when it has no entry. *)
Definition bucket (label : string) (l : list DetectedPackage) : Groups.t :=
  match l with
  | [] => []
  | _ => [(label, l)]
  end.

(** The five fixed groups, in priority order, each with the entries of
    its category in their input order. *)
Definition five_buckets (packages : list DetectedPackage) : Groups.t :=
  bucket "Brand-Specific Bloatware" (filter (in_category "brand") packages)
  ++ bucket "Chipset-Specific Bloatware" (filter (in_category "chipset") packages)
  ++ bucket "Generic Bloatware" (filter (in_category "generic") packages)
  ++ bucket "Suspicious Packages" (filter (in_category "suspicious") packages)
  ++ bucket "Other Installed Apps" (filter (in_category "system") packages).

(** The entry is among those selected for removal. *)
Definition is_selected (p : DetectedPackage) : Prop := selected p = true.

#[global] Instance is_selected_dec p : Decision (is_selected p).
Proof. unfold is_selected. apply _. Defined.

(** [p'] is [p] up to the [selected] flag. *)
Definition same_but_selected (p p' : DetectedPackage) : Prop :=
  packageName p' = packageName p /\ appName p' = appName p
  /\ description p' = description p /\ safetyRating p' = safetyRating p
  /\ removalImpact p' = removalImpact p
  /\ packageCategory p' = packageCategory p /\ category p' = category p.

(** The identifiers a category toggle targets: those of the entries
    displayed under the label. *)
Definition targeted (packages : list DetectedPackage) (label : string)
    (p : DetectedPackage) : Prop :=
  exists q, q ∈ packages /\ label_of q = label
            /\ packageName q = packageName p.

(** The entries displayed under a label, in display order. *)
Definition category_entries (packages : list DetectedPackage)
    (label : string) : list DetectedPackage :=
  filter (fun p => label_of p = label) (JS.sort compare_priority packages).

(** The entry belongs to one of the three bloatware categories, as the
    summary counts them: neither [suspicious] nor [system]. *)
Definition is_bloatware_category (p : DetectedPackage) : Prop :=
  category p ≠ "suspicious" /\ category p ≠ "system".

#[global] Instance is_bloatware_category_dec p :
  Decision (is_bloatware_category p).
Proof. unfold is_bloatware_category. apply _. Defined.

(** The groups with a function applied to every entry. *)
Definition map_groups (f : DetectedPackage -> DetectedPackage)
    (g : Groups.t) : Groups.t :=
  (fun kv : string * list DetectedPackage => (kv.1, f <$> kv.2)) <$> g.

(** Two groups with the same label whose entries agree, one by one, up to
    the [selected] flag. *)
Definition same_group (g g' : string * list DetectedPackage) : Prop :=
  g'.1 = g.1 /\ Forall2 same_but_selected g.2 g'.2.

(** What the loop of [groupByCategory] keeps true of the map it builds
    from the entries [seen] so far. *)
Definition groups_ok (g : Groups.t) (seen : list DetectedPackage) : Prop :=
  NoDup g.*1
  /\ concat g.*2 ≡ₚ seen
  /\ Forall (fun kv : string * list DetectedPackage =>
               kv.2 ≠ [] /\ Forall (fun p => label_of p = kv.1) kv.2) g.



(** [t] occurs in [s]. *)
Definition occurs_in (t s : string) : Prop :=
  exists a b, s = a +:+ t +:+ b.

(** Some prefix of the list matches the lower-cased identifier. *)
Definition prefix_match (prefixes : list string) (name : string) : Prop :=
  exists p, p ∈ prefixes /\ begins_with (JS.toLowerCase name) p.

End Spec.

(** ** Sample data for the worked examples *)

Module Sample.

Definition no_metadata : string -> option Metadata.t := fun _ => None.

Definition db : DeviceData :=
  {| recognisedPackages := ["com.android.chrome"];
     bloatwarePackages :=
       [ PkgString "com.android.egg";
         PkgString "com.samsung.android.bixby.agent";
         PkgString "com.mediatek.engineermode";
         PkgInfo (PackageInfo.mk "com.facebook.katana" (Some "Facebook") None) ] |}.

(** Three lines as [pm list packages] prints them. *)
Definition adb_output : string :=
  "package:com.android.egg"
  +:+ String JS.LF ("package:com.unknown.test123"
  +:+ String JS.LF "package:com.android.chrome").

Definition bixby : DetectedPackage :=
  {| packageName := "com.samsung.android.bixby.agent";
     appName := "com.samsung.android.bixby.agent";
     description := ""; safetyRating := None; removalImpact := None;
     packageCategory := None; category := "brand"; selected := true |}.

Definition egg : DetectedPackage :=
  {| packageName := "com.android.egg"; appName := "com.android.egg";
     description := ""; safetyRating := None; removalImpact := None;
     packageCategory := None; category := "generic"; selected := true |}.

Definition chrome : DetectedPackage :=
  {| packageName := "com.android.chrome"; appName := "com.android.chrome";
     description := RECOGNISED_FALLBACK; safetyRating := None;
     removalImpact := None; packageCategory := None;
     category := "system"; selected := false |}.

Definition unknown : DetectedPackage :=
  {| packageName := "com.unknown.test123"; appName := "com.unknown.test123";
     description := UNRECOGNISED_FALLBACK; safetyRating := None;
     removalImpact := None; packageCategory := None;
     category := "suspicious"; selected := false |}.

Definition blank_submission : AppState :=
  {| packageInput := "   "; detectedPackages := [egg]; error := None;
     isProcessing := false; currentStep := 2 |}.

End Sample.

(** * Properties *)

#[local] Arguments String.append : simpl nomatch.
#[local] Set Warnings "-clear-no-such-hyp".

(** ** Strings: trimming and lines *)

Lemma trimStart_blank_app w s :
  Spec.blank w = true -> JS.trimStart (w +:+ s) = JS.trimStart s.
Proof.
  induction w as [|c w IH]; simpl; [done|].
  intros [Hc Hw]%andb_true_iff. rewrite Hc. auto.
Qed.

Lemma trimEnd_blank w : Spec.blank w = true -> JS.trimEnd w = "".
Proof.
  induction w as [|c w IH]; simpl; [done|].
  intros [Hc Hw]%andb_true_iff. rewrite IH, Hc; done.
Qed.

Lemma trimEnd_app_blank s w :
  Spec.blank w = true -> JS.trimEnd (s +:+ w) = JS.trimEnd s.
Proof.
  intros Hw. induction s as [|c s IH]; simpl.
  - by apply trimEnd_blank.
  - by rewrite IH.
Qed.

Lemma blank_app a b : Spec.blank (a +:+ b) = Spec.blank a && Spec.blank b.
Proof.
  induction a as [|c a IH]; simpl; [done|].
  by rewrite IH, andb_assoc.
Qed.

Lemma trimStart_blank w : Spec.blank w = true -> JS.trimStart w = "".
Proof.
  induction w as [|c w IH]; simpl; [done|].
  intros [Hc Hw]%andb_true_iff. rewrite Hc. auto.
Qed.

Lemma trimStart_app s w :
  Spec.blank s = false -> JS.trimStart (s +:+ w) = JS.trimStart s +:+ w.
Proof.
  induction s as [|c s IH]; simpl; [done|].
  destruct (JS.isWhiteSpace c); simpl; auto.
Qed.

Lemma trim_blank w : Spec.blank w = true -> JS.trim w = "".
Proof. intros Hw. unfold JS.trim. by rewrite trimStart_blank. Qed.

Lemma trim_blank_app w s : Spec.blank w = true -> JS.trim (w +:+ s) = JS.trim s.
Proof. intros Hw. unfold JS.trim. by rewrite trimStart_blank_app. Qed.

Lemma trim_app_blank s w : Spec.blank w = true -> JS.trim (s +:+ w) = JS.trim s.
Proof.
  intros Hw. destruct (Spec.blank s) eqn:Hs.
  - rewrite !trim_blank; [done..|]. by rewrite blank_app, Hs, Hw.
  - unfold JS.trim. rewrite trimStart_app by done. by apply trimEnd_app_blank.
Qed.

Lemma trimStart_split s : exists w, Spec.blank w = true /\ s = w +:+ JS.trimStart s.
Proof.
  induction s as [|c s (w & Hw & IH)]; simpl.
  - by exists "".
  - destruct (JS.isWhiteSpace c) eqn:Hc.
    + exists (String c w). simpl. rewrite Hc, Hw. by rewrite <- IH.
    + by exists "".
Qed.

Lemma trimEnd_split s : exists w, Spec.blank w = true /\ s = JS.trimEnd s +:+ w.
Proof.
  induction s as [|c s (w & Hw & IH)]; simpl.
  - by exists "".
  - destruct (JS.trimEnd s) as [|d r] eqn:Hr.
    + destruct (JS.isWhiteSpace c) eqn:Hc.
      * exists (String c w). simpl in IH |- *. rewrite Hc, Hw. by subst s.
      * exists w. split; [done|]. simpl in IH |- *. by subst s.
    + exists w. split; [done|]. simpl. by rewrite IH at 1.
Qed.

(** Lines *)

Lemma split_lines_cons s : exists l ls, JS.split_lines s = l :: ls.
Proof.
  destruct s as [|c s]; simpl; [by eexists _, _|].
  destruct (Ascii.eqb c JS.LF); [by eexists _, _|].
  destruct (JS.split_lines s); by eexists _, _.
Qed.

Lemma split_lines_blank w :
  Spec.blank w = true -> Forall (fun l => Spec.blank l = true) (JS.split_lines w).
Proof.
  induction w as [|c w IH]; simpl.
  - intros _. by repeat constructor.
  - intros [Hc Hw]%andb_true_iff. specialize (IH Hw).
    destruct (Ascii.eqb c JS.LF); [by constructor|].
    destruct (JS.split_lines w) as [|l ls]; [by repeat constructor; simpl; rewrite Hc|].
    inversion_clear IH. constructor; [|done]. simpl. by rewrite Hc.
Qed.

Lemma kept_lines_blank ls :
  Forall (fun l => Spec.blank l = true) ls -> Spec.kept_lines ls = [].
Proof.
  unfold Spec.kept_lines. induction 1 as [|l ls Hl _ IH]; [done|].
  rewrite fmap_cons, filter_cons_False; [done|].
  rewrite trim_blank by done. unfold JS.truthy. tauto.
Qed.

Lemma kept_lines_cons_eq l l' ls ls' :
  JS.trim l = JS.trim l' -> Spec.kept_lines ls = Spec.kept_lines ls' ->
  Spec.kept_lines (l :: ls) = Spec.kept_lines (l' :: ls').
Proof.
  unfold Spec.kept_lines. intros Hl Hls. rewrite !fmap_cons, Hl.
  rewrite !filter_cons. by rewrite Hls.
Qed.

Lemma kept_lines_blank_app w s :
  Spec.blank w = true ->
  Spec.kept_lines (JS.split_lines (w +:+ s)) = Spec.kept_lines (JS.split_lines s).
Proof.
  induction w as [|c w IH]; simpl; [done|].
  intros [Hc Hw]%andb_true_iff. specialize (IH Hw).
  destruct (Ascii.eqb c JS.LF).
  - rewrite <- IH. unfold Spec.kept_lines. rewrite fmap_cons.
    rewrite filter_cons_False; [done|]. unfold JS.truthy. by vm_compute; tauto.
  - destruct (split_lines_cons (w +:+ s)) as (l & ls & E).
    destruct (split_lines_cons s) as (l' & ls' & E').
    rewrite E, E' in *. rewrite <- IH. apply kept_lines_cons_eq; [|done].
    unfold JS.trim. simpl. by rewrite Hc.
Qed.

Lemma kept_lines_app_blank s w :
  Spec.blank w = true ->
  exists l ls l' ls' v,
    JS.split_lines (s +:+ w) = l' :: ls' /\ JS.split_lines s = l :: ls /\
    Spec.blank v = true /\ l' = l +:+ v /\ Spec.kept_lines ls' = Spec.kept_lines ls.
Proof.
  intros Hw. induction s as [|c s (l & ls & l' & ls' & v & E' & E & Hv & -> & Hk)].
  - destruct (split_lines_cons w) as (l' & ls' & E').
    pose proof (split_lines_blank w Hw) as Hb. rewrite E' in Hb.
    inversion_clear Hb.
    exists "", [], l', ls', l'. simpl. rewrite E'.
    repeat split; try done. by rewrite kept_lines_blank.
  - simpl. rewrite E, E'. destruct (Ascii.eqb c JS.LF).
    + exists "", (l :: ls), "", ((l +:+ v) :: ls'), "". repeat split; try done.
      apply kept_lines_cons_eq; [|done]. by apply trim_app_blank.
    + exists (String c l), ls, (String c (l +:+ v)), ls', v. by repeat split.
Qed.

Lemma kept_lines_trim input :
  Spec.kept_lines (JS.split_lines (JS.trim input)) = Spec.kept_lines (JS.split_lines input).
Proof.
  unfold JS.trim.
  destruct (trimStart_split input) as (w1 & Hw1 & E1).
  destruct (trimEnd_split (JS.trimStart input)) as (w2 & Hw2 & E2).
  rewrite E1 at 2. rewrite kept_lines_blank_app by done.
  rewrite E2 at 2.
  destruct (kept_lines_app_blank (JS.trimEnd (JS.trimStart input)) w2 Hw2)
    as (l & ls & l' & ls' & v & E' & E & Hv & -> & Hk).
  rewrite E, E'. apply kept_lines_cons_eq; [|done].
  symmetry. by apply trim_app_blank.
Qed.

Lemma startsWith_begins s p : JS.startsWith s p = true <-> Spec.begins_with s p.
Proof.
  unfold JS.startsWith, Spec.begins_with. revert s.
  induction p as [|a p IH]; intros s.
  - split; [by exists s|]. by destruct s.
  - destruct s as [|b s]; simpl.
    + split; [done|]. by intros [r ?].
    + destruct (ascii_dec a b) as [->|Hne].
      * rewrite IH. split; intros [r Hr]; exists r; simpl in *; by simplify_eq.
      * split; [done|]. intros [r ?]. by simplify_eq/=.
Qed.

Lemma startsWith_false s p : JS.startsWith s p = false <-> ~ Spec.begins_with s p.
Proof. rewrite <- startsWith_begins. by destruct (JS.startsWith s p). Qed.

Lemma slice_app p r : JS.slice (String.length p) (p +:+ r) = r.
Proof. induction p as [|a p IH]; simpl; [by destruct r|done]. Qed.

Lemma stripPrefix_prefixed r : stripPrefix ("package:" +:+ r) = r.
Proof.
  unfold stripPrefix.
  assert (JS.startsWith ("package:" +:+ r) "package:" = true) as ->.
  { apply startsWith_begins. by exists r. }
  apply (slice_app "package:").
Qed.

Lemma stripPrefix_plain t : ~ Spec.begins_with t "package:" -> stripPrefix t = t.
Proof. intros H%startsWith_false. unfold stripPrefix. by rewrite H. Qed.

Lemma leading_ws_trimStart s : Spec.leading_ws (JS.trimStart s) = false.
Proof.
  induction s as [|c s IH]; simpl; [done|].
  destruct (JS.isWhiteSpace c) eqn:Hc; simpl; done.
Qed.

Lemma leading_ws_trimEnd s :
  Spec.leading_ws s = false -> Spec.leading_ws (JS.trimEnd s) = false.
Proof.
  destruct s as [|c s]; simpl; [done|]. intros Hc.
  destruct (JS.trimEnd s); simpl; by rewrite ?Hc.
Qed.

Lemma trailing_ws_trimEnd s : Spec.trailing_ws (JS.trimEnd s) = false.
Proof.
  induction s as [|c s IH]; simpl; [done|].
  destruct (JS.trimEnd s) as [|d r] eqn:Hr.
  - destruct (JS.isWhiteSpace c) eqn:Hc; simpl; done.
  - simpl in *. done.
Qed.

Lemma leading_ws_trim s : Spec.leading_ws (JS.trim s) = false.
Proof. apply leading_ws_trimEnd, leading_ws_trimStart. Qed.

Lemma trailing_ws_trim s : Spec.trailing_ws (JS.trim s) = false.
Proof. apply trailing_ws_trimEnd. Qed.

Lemma trailing_ws_cons c s :
  Spec.trailing_ws (String c s) = false -> Spec.trailing_ws s = false.
Proof. by destruct s. Qed.

Lemma trailing_ws_slice n s :
  Spec.trailing_ws s = false -> Spec.trailing_ws (JS.slice n s) = false.
Proof.
  revert s. induction n as [|n IH]; intros s Hs; simpl; [done|].
  destruct s as [|c s]; [done|]. by apply IH, (trailing_ws_cons c).
Qed.

Lemma trailing_ws_stripPrefix t :
  Spec.trailing_ws t = false -> Spec.trailing_ws (stripPrefix t) = false.
Proof.
  intros Ht. unfold stripPrefix.
  destruct (JS.startsWith t "package:"); [|done]. by apply trailing_ws_slice.
Qed.

Lemma trimStart_id s : Spec.leading_ws s = false -> JS.trimStart s = s.
Proof. destruct s as [|c s]; simpl; [done|]. by intros ->. Qed.

Lemma trimEnd_id s : Spec.trailing_ws s = false -> JS.trimEnd s = s.
Proof.
  induction s as [|c s IH]; simpl; [done|]. intros Hs.
  destruct s as [|d s]; [by simpl; rewrite Hs|].
  by rewrite IH.
Qed.

Lemma trim_id s :
  Spec.leading_ws s = false -> Spec.trailing_ws s = false -> JS.trim s = s.
Proof. intros H1 H2. unfold JS.trim. by rewrite trimStart_id, trimEnd_id. Qed.

(* line feeds *)
Lemma has_LF_split s : Forall (fun l => Spec.has_LF l = false) (JS.split_lines s).
Proof.
  induction s as [|c s IH]; simpl; [by repeat constructor|].
  destruct (Ascii.eqb c JS.LF) eqn:Hc; [by constructor|].
  destruct (JS.split_lines s) as [|l ls]; [by repeat constructor; simpl; rewrite Hc|].
  inversion_clear IH. constructor; [|done]. simpl. by rewrite Hc.
Qed.

Lemma has_LF_trimStart s : Spec.has_LF s = false -> Spec.has_LF (JS.trimStart s) = false.
Proof.
  induction s as [|c s IH]; simpl; [done|].
  intros [Hc Hs]%orb_false_iff.
  destruct (JS.isWhiteSpace c); [auto|]. simpl. by rewrite Hc, Hs.
Qed.

Lemma has_LF_trimEnd s : Spec.has_LF s = false -> Spec.has_LF (JS.trimEnd s) = false.
Proof.
  induction s as [|c s IH]; simpl; [done|].
  intros [Hc Hs]%orb_false_iff. specialize (IH Hs).
  destruct (JS.trimEnd s) as [|d r].
  - destruct (JS.isWhiteSpace c); simpl; by rewrite ?Hc.
  - change (Spec.has_LF (String c (String d r))) with
      (Ascii.eqb c JS.LF || Spec.has_LF (String d r)). by rewrite Hc, IH.
Qed.

Lemma has_LF_slice n s : Spec.has_LF s = false -> Spec.has_LF (JS.slice n s) = false.
Proof.
  revert s. induction n as [|n IH]; intros s Hs; simpl; [done|].
  destruct s as [|c s]; [done|]. simpl in Hs.
  apply orb_false_iff in Hs as [_ Hs]. by apply IH.
Qed.

Lemma has_LF_stripPrefix t : Spec.has_LF t = false -> Spec.has_LF (stripPrefix t) = false.
Proof.
  intros Ht. unfold stripPrefix.
  destruct (JS.startsWith t "package:"); [|done]. by apply has_LF_slice.
Qed.

Lemma split_lines_no_LF x : Spec.has_LF x = false -> JS.split_lines x = [x].
Proof.
  induction x as [|c x IH]; simpl; [done|].
  intros [Hc Hx]%orb_false_iff. by rewrite Hc, IH.
Qed.

Lemma split_lines_app_LF x s :
  Spec.has_LF x = false ->
  JS.split_lines (x +:+ String JS.LF s) = x :: JS.split_lines s.
Proof.
  induction x as [|c x IH]; simpl; [done|].
  intros [Hc Hx]%orb_false_iff. by rewrite Hc, IH.
Qed.

Lemma leading_ws_app x y : x ≠ "" -> Spec.leading_ws (x +:+ y) = Spec.leading_ws x.
Proof. by destruct x. Qed.

Lemma trailing_ws_app x y : y ≠ "" -> Spec.trailing_ws (x +:+ y) = Spec.trailing_ws y.
Proof.
  intros Hy. induction x as [|c x IH]; simpl; [done|].
  rewrite <- IH. destruct (x +:+ y) eqn:E; [|done].
  destruct x; simpl in E; [done|discriminate].
Qed.

Lemma filter_fmap {A B} (f : A -> B) (P : B -> Prop) `{!forall y, Decision (P y)}
    (l : list A) :
  filter P (f <$> l) = f <$> filter (fun x => P (f x)) l.
Proof.
  induction l as [|x l IH]; [done|].
  rewrite fmap_cons, !filter_cons, IH. by destruct (decide (P (f x))).
Qed.

Lemma stripPrefix_empty t : stripPrefix t = "" <-> t = "" \/ t = "package:".
Proof.
  destruct (JS.startsWith t "package:") eqn:E.
  - apply startsWith_begins in E as [r ->]. rewrite stripPrefix_prefixed.
    split; [intros ->; by right|]. intros [?|?]; [done|].
    by apply (String.app_inj "package:" r "").
  - unfold stripPrefix. rewrite E. split; [by left|]. intros [?| ->]; [done|].
    by vm_compute in E.
Qed.

Lemma parsePackageList_lines input :
  parsePackageList input = stripPrefix <$> Spec.payload_lines input.
Proof.
  unfold parsePackageList, Spec.payload_lines.
  change (filter JS.truthy (JS.trim <$> JS.split_lines (JS.trim input)))
    with (Spec.kept_lines (JS.split_lines (JS.trim input))).
  rewrite kept_lines_trim, filter_fmap. unfold Spec.kept_lines.
  rewrite list_filter_filter. f_equal. apply list_filter_iff.
  intros t. unfold JS.truthy. rewrite stripPrefix_empty. tauto.
Qed.

Lemma payload_lines_trimmed input :
  Forall (fun t => t ≠ "" /\ t ≠ "package:" /\ Spec.leading_ws t = false
                   /\ Spec.trailing_ws t = false /\ Spec.has_LF t = false)
    (Spec.payload_lines input).
Proof.
  apply Forall_forall. intros t [[? ?] Ht]%list_elem_of_filter.
  apply list_elem_of_fmap in Ht as (l & -> & Hl).
  repeat split; try done.
  - apply leading_ws_trim.
  - apply trailing_ws_trim.
  - apply has_LF_trimEnd, has_LF_trimStart.
    pose proof (has_LF_split input) as H'. rewrite Forall_forall in H'. auto.
Qed.

Lemma parsePackageList_elements input :
  Forall (fun x => x ≠ "" /\ Spec.trailing_ws x = false /\ Spec.has_LF x = false)
    (parsePackageList input).
Proof.
  rewrite parsePackageList_lines. apply Forall_fmap.
  eapply Forall_impl; [apply payload_lines_trimmed|].
  intros t (? & ? & ? & ? & ?). simpl. repeat split.
  - rewrite stripPrefix_empty. tauto.
  - by apply trailing_ws_stripPrefix.
  - by apply has_LF_stripPrefix.
Qed.

(** Claim C3, amended.  For every raw input, the normaliser's output is the
    sequence of the trimmed input lines that are neither blank nor a bare
    ["package:"], in input order, each with one leading ["package:"] removed
    if it had one.  Every element is non-empty and has no trailing white
    space.  An element whose line did not begin with ["package:"] is the line
    itself and is clean (no white space at either end, no ["package:"] in
    front); an element whose line did begin with it is exactly the text that
    followed the first ["package:"], kept as it is. *)
Theorem parsePackageList_contract (input : string) :
  parsePackageList input = stripPrefix <$> Spec.payload_lines input
  /\ Forall (fun x => x ≠ "" /\ Spec.trailing_ws x = false) (parsePackageList input)
  /\ Forall (fun t => (~ Spec.begins_with t "package:" ->
                        stripPrefix t = t /\ Spec.clean t)
                   /\ (Spec.begins_with t "package:" ->
                        t = "package:" +:+ stripPrefix t))
       (Spec.payload_lines input).
Proof.
  split; [apply parsePackageList_lines|]. split.
  - eapply Forall_impl; [apply parsePackageList_elements|].
    by intros x (? & ? & ?).
  - eapply Forall_impl; [apply payload_lines_trimmed|].
    intros t (? & ? & ? & ? & ?). split.
    + intros Hp. split; [by apply stripPrefix_plain|]. by repeat split.
    + intros [r ->]. by rewrite stripPrefix_prefixed.
Qed.

Lemma parse_space_after_prefix : parsePackageList "package: com.android.egg" = [" com.android.egg"].
Proof. vm_compute. reflexivity. Qed.

(** Claim C3 as stated fails: the text after a stripped prefix is not
    trimmed again, so ["package: com.android.egg"] yields an element with a
    leading space. *)
Lemma parsePackageList_not_always_clean :
  ~ Forall Spec.clean (parsePackageList "package: com.android.egg").
Proof.
  rewrite parse_space_after_prefix. intros H. inversion_clear H as [|? ? Hc _].
  destruct Hc as (_ & Hl & _). vm_compute in Hl. discriminate.
Qed.

Lemma parse_doubled_prefix :
  parsePackageList "package:package:com.android.egg" = ["package:com.android.egg"].
Proof. vm_compute. reflexivity. Qed.

Lemma join_lines_cons x y l :
  JS.join_lines (x :: y :: l) = x +:+ String JS.LF (JS.join_lines (y :: l)).
Proof. done. Qed.

Lemma split_join_lines l :
  l ≠ [] -> Forall (fun x => Spec.has_LF x = false) l ->
  JS.split_lines (JS.join_lines l) = l.
Proof.
  intros Hne H. induction H as [|x l Hx Hl IH]; [done|].
  destruct l as [|y l]; [by apply split_lines_no_LF|].
  rewrite join_lines_cons, split_lines_app_LF by done. by rewrite IH.
Qed.

Lemma leading_ws_join x l :
  x ≠ "" -> Spec.leading_ws (JS.join_lines (x :: l)) = Spec.leading_ws x.
Proof.
  intros Hx. destruct l as [|y l]; [done|].
  rewrite join_lines_cons. by apply leading_ws_app.
Qed.

Lemma trailing_ws_join l :
  Forall (fun x => x ≠ "" /\ Spec.trailing_ws x = false) l ->
  Spec.trailing_ws (JS.join_lines l) = false.
Proof.
  induction 1 as [|x l [Hx Ht] Hl IH]; [done|].
  destruct l as [|y l]; [done|].
  rewrite join_lines_cons. change (x +:+ String JS.LF ?s) with (x +:+ (String JS.LF "" +:+ s)).
  inversion_clear Hl as [|? ? [Hy _] _].
  assert (JS.join_lines (y :: l) ≠ "") as Hj.
  { destruct l; [done|]. rewrite join_lines_cons. by destruct y. }
  rewrite trailing_ws_app; [|by destruct (JS.join_lines (y :: l))].
  by rewrite trailing_ws_app.
Qed.

Lemma filter_id {A} (P : A -> Prop) `{!forall y, Decision (P y)} (l : list A) :
  Forall P l -> filter P l = l.
Proof.
  induction 1 as [|x l Hx _ IH]; [done|]. by rewrite filter_cons_True, IH.
Qed.

Lemma fmap_id_on {A} (f : A -> A) (l : list A) :
  Forall (fun x => f x = x) l -> f <$> l = l.
Proof. induction 1 as [|x l Hx _ IH]; [done|]. by rewrite fmap_cons, Hx, IH. Qed.

Lemma parsePackageList_join_clean (l : list string) :
  Forall (fun x => Spec.clean x /\ Spec.has_LF x = false) l ->
  parsePackageList (JS.join_lines l) = l.
Proof.
  intros H. destruct l as [|x0 l0]; [done|]. set (l := x0 :: l0) in *.
  unfold parsePackageList.
  assert (JS.trim (JS.join_lines l) = JS.join_lines l) as ->.
  { apply trim_id.
    - inversion_clear H as [|? ? [(? & ? & ? & ?) _] _].
      subst l. by rewrite leading_ws_join.
    - apply trailing_ws_join. eapply Forall_impl; [exact H|].
      intros x [(? & ? & ? & ?) _]. done. }
  rewrite split_join_lines; [|done|].
  2:{ eapply Forall_impl; [exact H|]. by intros x [_ ?]. }
  rewrite (fmap_id_on JS.trim).
  2:{ eapply Forall_impl; [exact H|]. intros x [(? & ? & ? & ?) _]. by apply trim_id. }
  rewrite (filter_id JS.truthy l).
  2:{ eapply Forall_impl; [exact H|]. intros x [(? & ? & ? & ?) _]. done. }
  rewrite (fmap_id_on stripPrefix l).
  2:{ eapply Forall_impl; [exact H|]. intros x [(? & ? & ? & ?) _]. by apply stripPrefix_plain. }
  apply filter_id. eapply Forall_impl; [exact H|]. intros x [(? & ? & ? & ?) _]. done.
Qed.

(** Claim C6, amended.  For every input whose normalised elements have no
    leading white space and no leading ["package:"], normalising the output
    joined by line feeds gives the output back. *)
Theorem parsePackageList_idempotent_on_clean (input : string) :
  Forall (fun x => Spec.leading_ws x = false /\ ~ Spec.begins_with x "package:")
    (parsePackageList input) ->
  parsePackageList (JS.join_lines (parsePackageList input)) = parsePackageList input.
Proof.
  intros H. apply parsePackageList_join_clean.
  pose proof (parsePackageList_elements input) as He.
  rewrite Forall_forall in *. intros x Hx.
  destruct (H x Hx), (He x Hx) as (? & ? & ?). by repeat split.
Qed.

(** Claim C6 as stated fails at ["package: com.android.egg"]: the first
    pass yields [" com.android.egg"], the second pass trims it. *)
Lemma parsePackageList_not_idempotent :
  parsePackageList (JS.join_lines (parsePackageList "package: com.android.egg"))
  ≠ parsePackageList "package: com.android.egg".
Proof. vm_compute. discriminate. Qed.

(** ** First occurrences *)

Lemma filter_first_seen (P : string -> Prop) `{!forall x, Decision (P x)} l :
  filter P (Spec.first_seen l) = Spec.first_seen (filter P l).
Proof.
  induction l as [|x l IH]; [done|]. simpl.
  rewrite !filter_cons. destruct (decide (P x)) as [HP|HP]; simpl.
  - rewrite <- IH, !list_filter_filter. f_equal.
    apply list_filter_iff. tauto.
  - rewrite <- IH, list_filter_filter. apply list_filter_iff.
    intros y. split; [tauto|]. intros Hy. split; [done|]. by intros ->.
Qed.

Lemma first_unseen_first_seen seen l :
  Spec.first_unseen seen l = Spec.first_seen (filter (fun x => x ∉ seen) l).
Proof.
  revert seen. induction l as [|x l IH]; intros seen; [done|]. simpl.
  rewrite filter_cons. destruct (decide (x ∈ seen)) as [Hx|Hx].
  - rewrite decide_False by tauto. apply IH.
  - rewrite decide_True by done. simpl. f_equal.
    rewrite IH, filter_first_seen, list_filter_filter. f_equal.
    apply list_filter_iff. intros y. set_solver.
Qed.

Lemma first_unseen_empty l : Spec.first_unseen ∅ l = Spec.first_seen l.
Proof.
  rewrite first_unseen_first_seen. f_equal. apply filter_id.
  apply Forall_forall. set_solver.
Qed.

Lemma elem_of_first_seen x l : x ∈ Spec.first_seen l <-> x ∈ l.
Proof.
  induction l as [|y l IH]; [done|]. simpl.
  rewrite !elem_of_cons, list_elem_of_filter, IH.
  destruct (decide (x = y)); naive_solver.
Qed.

Lemma NoDup_first_seen l : NoDup (Spec.first_seen l).
Proof.
  induction l as [|y l IH]; simpl; [constructor|].
  constructor; [|by apply NoDup_filter].
  rewrite list_elem_of_filter. tauto.
Qed.

Lemma first_seen_duplicate l1 x l2 :
  x ∈ l1 -> Spec.first_seen (l1 ++ x :: l2) = Spec.first_seen (l1 ++ l2).
Proof.
  induction l1 as [|y l1 IH]; [by intros ?%elem_of_nil|].
  intros Hx. simpl. f_equal. destruct (decide (x = y)) as [->|Hne].
  - rewrite !filter_first_seen. f_equal.
    rewrite !filter_app, filter_cons_False; [done|]. tauto.
  - apply elem_of_cons in Hx as [?|Hx]; [done|]. by rewrite IH.
Qed.

(** ** The index built from the bloatware list *)

Lemma index_fold_set l ix x :
  x ∈ bloatwarePackageSet (fold_left index_step l ix)
  <-> x ∈ bloatwarePackageSet ix \/ x ∈ packageId <$> l.
Proof.
  revert ix. induction l as [|item l IH]; intros ix; simpl.
  - rewrite elem_of_nil. tauto.
  - rewrite IH, elem_of_cons. destruct item; simpl; set_solver.
Qed.

Lemma index_fold_map l ix n :
  bloatwareMetadataMap (fold_left index_step l ix) !! n
  = match Spec.last_info l n with
    | Some i => Some (info_metadata n i)
    | None => bloatwareMetadataMap ix !! n
    end.
Proof.
  revert ix. induction l as [|item l IH]; intros ix; simpl; [done|].
  rewrite IH. destruct item as [s|i]; simpl; [done|].
  destruct (Spec.last_info l n); [done|].
  destruct (decide (PackageInfo.appID i = n)) as [<-|Hne].
  - by rewrite lookup_insert_eq.
  - by rewrite lookup_insert_ne.
Qed.

Lemma build_index_set l x :
  x ∈ bloatwarePackageSet (build_index l) <-> x ∈ packageId <$> l.
Proof. unfold build_index. rewrite index_fold_set. set_solver. Qed.

Lemma build_index_map l n :
  bloatwareMetadataMap (build_index l) !! n = info_metadata n <$> Spec.last_info l n.
Proof.
  unfold build_index. rewrite index_fold_map. by destruct (Spec.last_info l n).
Qed.

(** ** The main loop *)

Section ClassifierFacts.

Variable getPackageMetadata : string -> option Metadata.t.

Lemma detect_fold R ix l st :
  detected (fold_left (detect_step getPackageMetadata R ix) l st)
  = detected st ++ (classify getPackageMetadata R ix <$> Spec.first_unseen (processedPackages st) l).
Proof.
  revert st. induction l as [|x l IH]; intros st; simpl.
  - by rewrite app_nil_r.
  - rewrite IH. unfold detect_step.
    destruct (decide (x ∈ processedPackages st)); [done|]. simpl.
    by rewrite <- app_assoc.
Qed.

Lemma detectBloatware_classify pkgs db :
  detectBloatware getPackageMetadata pkgs db
  = classify getPackageMetadata (list_to_set (recognisedPackages db))
      (build_index (bloatwarePackages db)) <$> Spec.first_seen pkgs.
Proof.
  unfold detectBloatware. rewrite detect_fold. simpl.
  by rewrite first_unseen_empty.
Qed.

Lemma packageName_classify R ix n : packageName (classify getPackageMetadata R ix n) = n.
Proof. unfold classify. by repeat case_decide. Qed.

Lemma detectBloatware_names pkgs db :
  packageName <$> detectBloatware getPackageMetadata pkgs db = Spec.first_seen pkgs.
Proof.
  rewrite detectBloatware_classify, <- list_fmap_compose.
  apply fmap_id_on, Forall_forall. intros n _. apply packageName_classify.
Qed.

Lemma elem_of_detectBloatware d pkgs db :
  d ∈ detectBloatware getPackageMetadata pkgs db ->
  d = classify getPackageMetadata (list_to_set (recognisedPackages db))
        (build_index (bloatwarePackages db)) (packageName d).
Proof.
  rewrite detectBloatware_classify.
  intros (n & -> & _)%list_elem_of_fmap. by rewrite packageName_classify.
Qed.

(** The three branches, with set membership read back on the lists. *)
Lemma classify_cases db n :
  let d := classify getPackageMetadata (list_to_set (recognisedPackages db))
             (build_index (bloatwarePackages db)) n in
  (n ∈ recognisedPackages db /\ d = classify_recognised getPackageMetadata n)
  \/ ((n ∉ recognisedPackages db) /\ n ∈ packageId <$> bloatwarePackages db
      /\ d = classify_bloatware getPackageMetadata
               (build_index (bloatwarePackages db)) n)
  \/ ((n ∉ recognisedPackages db) /\ (n ∉ packageId <$> bloatwarePackages db)
      /\ d = classify_unknown getPackageMetadata n).
Proof.
  simpl. unfold classify.
  destruct (decide (n ∈ (list_to_set (recognisedPackages db) : gset string)))
    as [Hr|Hr]; rewrite elem_of_list_to_set in Hr; [by left|right].
  destruct (decide (n ∈ bloatwarePackageSet (build_index (bloatwarePackages db))))
    as [Hb|Hb]; rewrite build_index_set in Hb; [by left|by right].
Qed.

(** Claim C1.  For every identifier list and reference database, every
    entry of the classifier's output follows the three-step, first-match-wins
    decision on its identifier: a member of [recognisedPackages] is
    [system] and not selected, also when it is listed as bloatware too;
    otherwise a member of [bloatwarePackages] is selected and gets the
    category of the prefix classification; otherwise it is [suspicious]
    and not selected.  The entries are those of the distinct identifiers,
    in first-seen order. *)
Theorem detectBloatware_decision (pkgs : list string) (db : DeviceData) :
  Forall (fun d =>
            let n := packageName d in
            if decide (n ∈ recognisedPackages db)
            then category d = "system" /\ selected d = false
            else if decide (n ∈ packageId <$> bloatwarePackages db)
            then selected d = true /\ category d = categorisePackage n
            else category d = "suspicious" /\ selected d = false)
    (detectBloatware getPackageMetadata pkgs db)
  /\ packageName <$> detectBloatware getPackageMetadata pkgs db = Spec.first_seen pkgs.
Proof.
  split; [|apply detectBloatware_names].
  apply Forall_forall. intros d Hd%elem_of_detectBloatware. simpl.
  destruct (classify_cases db (packageName d))
    as [[Hr E]|[(Hr & Hb & E)|(Hr & Hb & E)]];
    rewrite <- Hd in E; repeat case_decide; try done; by rewrite E.
Qed.

(** Claim C4.  For every identifier list, possibly with duplicates, the
    identifiers of the classifier's output are the distinct input
    identifiers in first-seen order: none is repeated, none is missing, and
    a later duplicate occurrence can be removed from the input without
    changing the output. *)
Theorem detectBloatware_first_occurrence (pkgs : list string) (db : DeviceData) :
  packageName <$> detectBloatware getPackageMetadata pkgs db = Spec.first_seen pkgs
  /\ NoDup (packageName <$> detectBloatware getPackageMetadata pkgs db)
  /\ (forall n, n ∈ pkgs <-> n ∈ packageName <$> detectBloatware getPackageMetadata pkgs db)
  /\ (forall l1 x l2, pkgs = l1 ++ x :: l2 -> x ∈ l1 ->
        detectBloatware getPackageMetadata pkgs db = detectBloatware getPackageMetadata (l1 ++ l2) db).
Proof.
  rewrite detectBloatware_names. split; [done|]. split; [apply NoDup_first_seen|].
  split; [intros n; by rewrite elem_of_first_seen|].
  intros l1 x l2 -> Hx.
  by rewrite !detectBloatware_classify, first_seen_duplicate.
Qed.

(** ** Prefix classification *)

Lemma existsb_startsWith prefixes name :
  existsb (fun p => JS.startsWith (JS.toLowerCase name) p) prefixes = true
  <-> Spec.prefix_match prefixes name.
Proof.
  rewrite existsb_exists. unfold Spec.prefix_match.
  split; intros (p & Hp & H); exists p.
  - apply list_elem_of_In in Hp. by apply startsWith_begins in H.
  - apply list_elem_of_In in Hp. by apply startsWith_begins in H.
Qed.

Lemma categorisePackage_rules name :
  (Spec.prefix_match BRAND_PREFIXES name -> categorisePackage name = "brand")
  /\ (~ Spec.prefix_match BRAND_PREFIXES name ->
      Spec.prefix_match CHIPSET_PREFIXES name ->
      categorisePackage name = "chipset")
  /\ (~ Spec.prefix_match BRAND_PREFIXES name ->
      ~ Spec.prefix_match CHIPSET_PREFIXES name ->
      categorisePackage name = "generic").
Proof.
  unfold categorisePackage.
  destruct (existsb _ BRAND_PREFIXES) eqn:Hb.
  - apply existsb_startsWith in Hb. tauto.
  - assert (~ Spec.prefix_match BRAND_PREFIXES name) as Hb'.
    { rewrite <- existsb_startsWith. by rewrite Hb. }
    destruct (existsb _ CHIPSET_PREFIXES) eqn:Hc.
    + apply existsb_startsWith in Hc. tauto.
    + assert (~ Spec.prefix_match CHIPSET_PREFIXES name) as Hc'.
      { rewrite <- existsb_startsWith. by rewrite Hc. }
      tauto.
Qed.

Lemma categorisePackage_case name name' :
  JS.toLowerCase name = JS.toLowerCase name' ->
  categorisePackage name = categorisePackage name'.
Proof. unfold categorisePackage. by intros ->. Qed.

(** Claim C5.  For every entry produced by the bloatware branch (its
    identifier is not recognised and is listed as bloatware): if the
    lower-cased identifier begins with a brand prefix the category is
    [brand], whether or not a chipset prefix matches as well; otherwise if
    it begins with a chipset prefix the category is [chipset]; otherwise it
    is [generic].  Identifiers that agree up to letter case get the same
    category. *)
Theorem bloatware_branch_category (pkgs : list string) (db : DeviceData)
    (d : DetectedPackage) :
  d ∈ detectBloatware getPackageMetadata pkgs db ->
  packageName d ∉ recognisedPackages db ->
  packageName d ∈ packageId <$> bloatwarePackages db ->
  (Spec.prefix_match BRAND_PREFIXES (packageName d) -> category d = "brand")
  /\ (~ Spec.prefix_match BRAND_PREFIXES (packageName d) ->
      Spec.prefix_match CHIPSET_PREFIXES (packageName d) ->
      category d = "chipset")
  /\ (~ Spec.prefix_match BRAND_PREFIXES (packageName d) ->
      ~ Spec.prefix_match CHIPSET_PREFIXES (packageName d) ->
      category d = "generic")
  /\ (forall name', JS.toLowerCase name' = JS.toLowerCase (packageName d) ->
        categorisePackage name' = category d).
Proof.
  intros Hd%elem_of_detectBloatware Hr Hb.
  destruct (classify_cases db (packageName d))
    as [[Hr' _]|[(_ & _ & E)|(_ & Hb' & _)]]; [done| |done].
  rewrite <- Hd in E.
  assert (category d = categorisePackage (packageName d)) as -> by by rewrite E.
  destruct (categorisePackage_rules (packageName d)) as (? & ? & ?).
  do 3 (split; [done|]). intros name' H'. by apply categorisePackage_case.
Qed.

End ClassifierFacts.

(** ** Precedence chains *)

Lemma or_str_blank_to_absent a d : JS.or_str (Spec.blank_to_absent a) d = JS.or_str a d.
Proof.
  destruct a as [s|]; simpl; [|done].
  destruct (decide (s = "")) as [->|Hs]; simpl; [done|].
  by rewrite decide_True.
Qed.

Lemma or_blank_to_absent a b : JS.or (Spec.blank_to_absent a) b = JS.or a b.
Proof.
  destruct a as [s|]; simpl; [|done].
  destruct (decide (s = "")) as [->|Hs]; simpl; [done|].
  by rewrite decide_True.
Qed.

Lemma or_str_chain1 a d : JS.or_str a d = Spec.first_non_empty [a] d.
Proof.
  destruct a as [s|]; simpl; [|done].
  unfold JS.truthy. by destruct (decide (s = "")); simpl; repeat case_decide.
Qed.

Lemma or_str_chain2 {A} a (info : option A) (f : A -> option string) d :
  JS.or_str (JS.or a ((fun i => JS.or_str (f i) d) <$> info)) d
  = Spec.first_non_empty [a; info ≫= f] d.
Proof.
  unfold JS.or, JS.or_str, JS.truthy.
  destruct a as [s|], info as [i|]; simpl; try destruct (f i) as [t|]; simpl;
    repeat (case_decide; simpl; try done); done.
Qed.

Lemma index_step_erase ix item :
  index_step ix (Spec.erase_item item) = index_step ix item.
Proof.
  destruct item as [s|i]; [done|]. unfold index_step. simpl.
  unfold info_metadata. simpl. by rewrite !or_str_blank_to_absent.
Qed.

Lemma build_index_erase l : build_index (Spec.erase_item <$> l) = build_index l.
Proof.
  unfold build_index. generalize {| bloatwarePackageSet := ∅; bloatwareMetadataMap := ∅ |}.
  induction l as [|item l IH]; intros ix; simpl; [done|].
  by rewrite index_step_erase, IH.
Qed.

Section ChainFacts.

Variable getPackageMetadata : string -> option Metadata.t.

Lemma opt_field_erase_appName n :
  opt_field Metadata.appName ((Spec.erase_lookup getPackageMetadata) n)
  = Spec.blank_to_absent (opt_field Metadata.appName (getPackageMetadata n)).
Proof. unfold opt_field, Spec.erase_lookup. by destruct (getPackageMetadata n). Qed.

Lemma opt_field_erase_description n :
  opt_field Metadata.description ((Spec.erase_lookup getPackageMetadata) n)
  = Spec.blank_to_absent (opt_field Metadata.description (getPackageMetadata n)).
Proof. unfold opt_field, Spec.erase_lookup. by destruct (getPackageMetadata n). Qed.

Lemma opt_field_erase_other {A} (f : Metadata.t -> option A) n :
  (forall m, f (Spec.erase_metadata m) = f m) ->
  opt_field f ((Spec.erase_lookup getPackageMetadata) n) = opt_field f (getPackageMetadata n).
Proof. intros Hf. unfold opt_field, Spec.erase_lookup. destruct (getPackageMetadata n); simpl; auto. Qed.

Lemma classify_erase R ix n :
  classify (Spec.erase_lookup getPackageMetadata) R ix n = classify getPackageMetadata R ix n.
Proof.
  unfold classify, classify_recognised, classify_bloatware, classify_unknown.
  rewrite opt_field_erase_appName, opt_field_erase_description.
  rewrite !(opt_field_erase_other Metadata.safetyRating) by done.
  rewrite !(opt_field_erase_other Metadata.removalImpact) by done.
  rewrite !(opt_field_erase_other Metadata.category) by done.
  by rewrite !or_str_blank_to_absent, !or_blank_to_absent.
Qed.

Lemma detectBloatware_erase pkgs db :
  detectBloatware (Spec.erase_lookup getPackageMetadata) pkgs (Spec.erase_db db)
  = detectBloatware getPackageMetadata pkgs db.
Proof.
  rewrite !detectBloatware_classify. simpl. rewrite build_index_erase.
  apply list_fmap_ext. intros _ n _. apply classify_erase.
Qed.

(** Claim C10.  In every entry of the classifier's output, [appName] and
    [description] are the first source of their precedence chain that is
    present and not the empty string (metadata, then, in the bloatware
    branch, the database record), or else the chain's fallback; and
    replacing every empty [appName] and [description] of the metadata table
    and of the database by an absent value leaves the output unchanged. *)
Theorem empty_source_falls_through (pkgs : list string) (db : DeviceData) :
  Forall (fun d =>
            let n := packageName d in
            let meta := getPackageMetadata n in
            let info := Spec.last_info (bloatwarePackages db) n in
            if decide (n ∈ recognisedPackages db) then
              appName d = Spec.first_non_empty [meta ≫= Metadata.appName] n
              /\ description d
                 = Spec.first_non_empty [meta ≫= Metadata.description]
                     RECOGNISED_FALLBACK
            else if decide (n ∈ packageId <$> bloatwarePackages db) then
              appName d
              = Spec.first_non_empty
                  [meta ≫= Metadata.appName; info ≫= PackageInfo.appName] n
              /\ description d
                 = Spec.first_non_empty
                     [meta ≫= Metadata.description;
                      info ≫= PackageInfo.description] ""
            else
              appName d = Spec.first_non_empty [meta ≫= Metadata.appName] n
              /\ description d
                 = Spec.first_non_empty [meta ≫= Metadata.description]
                     UNRECOGNISED_FALLBACK)
    (detectBloatware getPackageMetadata pkgs db)
  /\ detectBloatware (Spec.erase_lookup getPackageMetadata) pkgs (Spec.erase_db db)
     = detectBloatware getPackageMetadata pkgs db.
Proof.
  split; [|apply detectBloatware_erase].
  apply Forall_forall. intros d Hd%elem_of_detectBloatware. cbv beta zeta.
  remember (packageName d) as n eqn:Hn.
  destruct (classify_cases getPackageMetadata db n)
    as [[Hr E]|[(Hr & Hb & E)|(Hr & Hb & E)]];
    rewrite <- Hd in E; repeat case_decide; try done.
  - rewrite <- !or_str_chain1. by rewrite E.
  - rewrite <- !or_str_chain2. rewrite E. simpl.
    by rewrite build_index_map, <- !option_fmap_compose.
  - rewrite <- !or_str_chain1. by rewrite E.
Qed.

End ChainFacts.

Example empty_appName_yields_identifier :
  appName <$>
    detectBloatware Sample.no_metadata ["com.vendor.tool"]
      {| recognisedPackages := [];
         bloatwarePackages :=
           [PkgInfo (PackageInfo.mk "com.vendor.tool" (Some "") (Some "Vendor tool"))] |}
  = ["com.vendor.tool"].
Proof. vm_compute. reflexivity. Qed.

Example empty_metadata_description_falls_through :
  description <$>
    detectBloatware
      (fun _ => Some (Metadata.mk (Some "Tool") (Some "") None None None))
      ["com.vendor.tool"; "com.vendor.bare"]
      {| recognisedPackages := [];
         bloatwarePackages :=
           [PkgInfo (PackageInfo.mk "com.vendor.tool" None (Some "Vendor tool"));
            PkgString "com.vendor.bare"] |}
  = ["Vendor tool"; ""].
Proof. vm_compute. reflexivity. Qed.

(** ** Sorting by a numeric key *)

Lemma Forall_filter_keep {A} (P Q : A -> Prop) `{!forall a, Decision (P a)} l :
  Forall Q l -> Forall Q (filter P l).
Proof.
  rewrite !Forall_forall. intros HQ a [_ Ha]%list_elem_of_filter. auto.
Qed.

Lemma filter_none {A} (P : A -> Prop) `{!forall a, Decision (P a)} l :
  Forall (fun a => ~ P a) l -> filter P l = [].
Proof.
  induction 1 as [|x l Hx _ IH]; [done|]. by rewrite filter_cons_False.
Qed.

Section SortByKey.

Context {A : Type} (key : A -> Z).

Let compareFn (a b : A) : Z := (key a - key b)%Z.
Let le_key (a b : A) : Prop := (key a <= key b)%Z.

Lemma sort_insert_Permutation x l : JS.sort_insert compareFn x l ≡ₚ x :: l.
Proof.
  induction l as [|y l IH]; simpl; [done|].
  case_match; [done|]. rewrite IH. apply Permutation_swap.
Qed.

Lemma sort_Permutation l : JS.sort compareFn l ≡ₚ l.
Proof.
  induction l as [|x l IH]; simpl; [done|].
  by rewrite sort_insert_Permutation, IH.
Qed.

Lemma elem_of_sort x l : x ∈ JS.sort compareFn l <-> x ∈ l.
Proof. by rewrite sort_Permutation. Qed.

Lemma sort_insert_sorted x l :
  StronglySorted le_key l -> StronglySorted le_key (JS.sort_insert compareFn x l).
Proof.
  induction 1 as [|y l Hl IH Hy]; simpl; [by repeat constructor|].
  unfold compareFn at 1. case_match eqn:E.
  - apply Z.leb_le in E. constructor; [by constructor|].
    constructor; [unfold le_key; lia|].
    eapply Forall_impl; [exact Hy|]. unfold le_key. intros; lia.
  - apply Z.leb_gt in E. constructor; [done|].
    rewrite sort_insert_Permutation. constructor; [unfold le_key; lia|done].
Qed.

Lemma sort_sorted l : StronglySorted le_key (JS.sort compareFn l).
Proof.
  induction l as [|x l IH]; simpl; [constructor|]. by apply sort_insert_sorted.
Qed.

(** Stability: the entries of one key keep their relative order. *)
Lemma sort_insert_filter k x l :
  filter (fun a => key a = k) (JS.sort_insert compareFn x l)
  = filter (fun a => key a = k) (x :: l).
Proof.
  induction l as [|y l IH]; simpl; [done|].
  unfold compareFn at 1. case_match eqn:E; [done|]. apply Z.leb_gt in E.
  rewrite filter_cons, IH, !filter_cons.
  destruct (decide (key x = k)), (decide (key y = k)); try done. lia.
Qed.

Lemma sort_filter k l :
  filter (fun a => key a = k) (JS.sort compareFn l)
  = filter (fun a => key a = k) l.
Proof.
  induction l as [|x l IH]; simpl; [done|].
  by rewrite sort_insert_filter, !filter_cons, IH.
Qed.

Lemma StronglySorted_filter (P : A -> Prop) `{!forall a, Decision (P a)} l :
  StronglySorted le_key l -> StronglySorted le_key (filter P l).
Proof.
  induction 1 as [|y l Hl IH Hy]; [constructor|].
  rewrite filter_cons. case_decide; [|done].
  constructor; [done|]. by apply Forall_filter_keep.
Qed.

Lemma sorted_split k l :
  StronglySorted le_key l -> Forall (fun a => (k <= key a)%Z) l ->
  l = filter (fun a => key a = k) l ++ filter (fun a => key a ≠ k) l.
Proof.
  induction 1 as [|y l Hl IH Hy]; intros Hk; [done|].
  inversion_clear Hk as [|? ? Hky Hkl].
  rewrite !filter_cons. destruct (decide (key y = k)) as [Ey|Ey].
  - rewrite decide_False by tauto. simpl. f_equal. by apply IH.
  - rewrite decide_True by done.
    assert (filter (fun a => key a = k) l = []) as ->.
    { apply filter_none. eapply Forall_impl; [exact Hy|].
      unfold le_key. simpl. intros; lia. }
    simpl. f_equal. symmetry. apply filter_id.
    eapply Forall_impl; [exact Hy|]. unfold le_key. simpl. intros; lia.
Qed.

(** A sorted list is the concatenation of its buckets, in key order. *)
Lemma sorted_buckets ks l :
  StronglySorted Z.lt ks -> StronglySorted le_key l ->
  Forall (fun a => key a ∈ ks) l ->
  l = concat ((fun k => filter (fun a => key a = k) l) <$> ks).
Proof.
  intros Hks. revert l. induction Hks as [|k ks Hks IH Hk]; intros l Hl Hin.
  - destruct l as [|a l]; [done|]. inversion_clear Hin as [|? ? Ha _].
    by apply elem_of_nil in Ha.
  - simpl. rewrite Forall_forall in Hk.
    rewrite (sorted_split k l) at 1; [|done|].
    2:{ eapply Forall_impl; [exact Hin|]. simpl. intros a Ha.
        apply elem_of_cons in Ha as [->|Ha]; [lia|]. specialize (Hk _ Ha). lia. }
    f_equal.
    rewrite (IH (filter (fun a => key a ≠ k) l)) at 1.
    + f_equal. apply list_fmap_ext. intros _ k' Hk'%list_elem_of_lookup_2.
      rewrite list_filter_filter. apply list_filter_iff.
      intros a. specialize (Hk _ Hk'). split; [tauto|]. intros ->. split; [done|lia].
    + by apply StronglySorted_filter.
    + apply Forall_forall. intros a [Hne Ha]%list_elem_of_filter.
      rewrite Forall_forall in Hin. specialize (Hin _ Ha).
      apply elem_of_cons in Hin as [?|?]; done.
Qed.

Lemma sort_buckets ks l :
  StronglySorted Z.lt ks -> Forall (fun a => key a ∈ ks) l ->
  JS.sort compareFn l = concat ((fun k => filter (fun a => key a = k) l) <$> ks).
Proof.
  intros Hks Hin. etrans.
  - apply (sorted_buckets ks); [done|apply sort_sorted|].
    apply Forall_forall. intros a Ha. rewrite elem_of_sort in Ha.
    rewrite Forall_forall in Hin. by apply Hin.
  - f_equal. apply list_fmap_ext. intros _ k _. apply sort_filter.
Qed.

End SortByKey.

(** ** Priorities and labels of the categories *)

Lemma category_priority_cases c :
  (c = "brand" /\ category_priority c = 0%Z)
  \/ (c = "chipset" /\ category_priority c = 1%Z)
  \/ (c = "generic" /\ category_priority c = 2%Z)
  \/ (c = "suspicious" /\ category_priority c = 3%Z)
  \/ (c = "system" /\ category_priority c = 4%Z)
  \/ ((c ∉ Spec.the_five_categories) /\ category_priority c = 999%Z).
Proof.
  destruct (decide (c = "brand")) as [->|H0]; [by left|right].
  destruct (decide (c = "chipset")) as [->|H1]; [by left|right].
  destruct (decide (c = "generic")) as [->|H2]; [by left|right].
  destruct (decide (c = "suspicious")) as [->|H3]; [by left|right].
  destruct (decide (c = "system")) as [->|H4]; [by left|right].
  split.
  - unfold Spec.the_five_categories. rewrite !elem_of_cons, elem_of_nil. tauto.
  - unfold category_priority, categoryOrderMap. simpl.
    rewrite !lookup_insert_ne by done. by rewrite lookup_empty.
Qed.

Lemma category_priority_eq c c' :
  c' ∈ Spec.the_five_categories ->
  category_priority c = category_priority c' <-> c = c'.
Proof.
  unfold Spec.the_five_categories. rewrite !elem_of_cons, elem_of_nil.
  intros Hc'. split; [|by intros ->].
  destruct (category_priority_cases c)
    as [[-> ->]|[[-> ->]|[[-> ->]|[[-> ->]|[[-> ->]|[_ ->]]]]]];
    destruct Hc' as [->|[->|[->|[->|[->|[]]]]]]; by vm_compute.
Qed.

Lemma category_priority_default c :
  category_priority c = DEFAULT_CATEGORY_PRIORITY <-> c ∉ Spec.the_five_categories.
Proof.
  destruct (category_priority_cases c)
    as [[-> ->]|[[-> ->]|[[-> ->]|[[-> ->]|[[-> ->]|[Hc ->]]]]]];
    try (split; [by vm_compute|]; intros H; exfalso; apply H;
         unfold Spec.the_five_categories; rewrite !elem_of_cons; tauto).
  done.
Qed.

Lemma category_priority_range c :
  category_priority c ∈ [0; 1; 2; 3; 4; 999]%Z.
Proof.
  rewrite !elem_of_cons.
  destruct (category_priority_cases c)
    as [[_ ->]|[[_ ->]|[[_ ->]|[[_ ->]|[[_ ->]|[_ ->]]]]]]; tauto.
Qed.

Lemma sort_by_priority packages :
  JS.sort compare_priority packages
  = filter (Spec.in_category "brand") packages
    ++ filter (Spec.in_category "chipset") packages
    ++ filter (Spec.in_category "generic") packages
    ++ filter (Spec.in_category "suspicious") packages
    ++ filter (Spec.in_category "system") packages
    ++ filter Spec.uncategorised packages.
Proof.
  pose proof (sort_buckets (fun p => category_priority (category p))
                [0; 1; 2; 3; 4; 999]%Z packages) as H.
  etrans; [apply H|]; clear H.
  - repeat (apply SSorted_cons || apply SSorted_nil || constructor); lia.
  - apply Forall_forall. intros p _. apply category_priority_range.
  - simpl. rewrite app_nil_r.
    repeat f_equal; apply list_filter_iff; intros p; unfold Spec.in_category, Spec.uncategorised.
    1-5: rewrite <- (category_priority_eq (category p)); [done|];
         unfold Spec.the_five_categories; rewrite !elem_of_cons; tauto.
    apply category_priority_default.
Qed.

(** ** The insertion-ordered map of groups *)

Lemma groups_get_set g k v k' :
  Groups.get (Groups.set g k v) k'
  = if decide (k = k') then Some v else Groups.get g k'.
Proof.
  induction g as [|[k0 v0] g IH]; simpl.
  - by repeat case_decide.
  - repeat (case_decide; simpl; simplify_eq; try done).
Qed.

Lemma groups_get_None g k : k ∉ g.*1 -> Groups.get g k = None.
Proof.
  induction g as [|[k0 v0] g IH]; simpl; [done|].
  rewrite not_elem_of_cons. intros [? ?]. rewrite decide_False by done. auto.
Qed.

Lemma groups_set_new g k v : k ∉ g.*1 -> Groups.set g k v = g ++ [(k, v)].
Proof.
  induction g as [|[k0 v0] g IH]; simpl; [done|].
  rewrite not_elem_of_cons. intros [? ?]. rewrite decide_False by done.
  by rewrite IH.
Qed.

Lemma groups_get_last g k v : k ∉ g.*1 -> Groups.get (g ++ [(k, v)]) k = Some v.
Proof.
  induction g as [|[k0 v0] g IH]; simpl; [by rewrite decide_True|].
  rewrite not_elem_of_cons. intros [? ?]. rewrite decide_False by done. auto.
Qed.

Lemma groups_set_last g k v v' :
  k ∉ g.*1 -> Groups.set (g ++ [(k, v)]) k v' = g ++ [(k, v')].
Proof.
  induction g as [|[k0 v0] g IH]; simpl; [by rewrite decide_True|].
  rewrite not_elem_of_cons. intros [? ?]. rewrite decide_False by done.
  by rewrite IH.
Qed.

Lemma group_step_get g p k :
  Groups.get (group_step g p) k
  = if decide (Spec.label_of p = k)
    then Some (default [] (Groups.get g k) ++ [p])
    else Groups.get g k.
Proof.
  unfold group_step, Groups.has, Groups.push. fold (Spec.label_of p).
  destruct (Groups.get g (Spec.label_of p)) as [v|] eqn:E.
  - rewrite E, groups_get_set. case_decide; [|done]. subst. by rewrite E.
  - rewrite groups_get_set, decide_True by done.
    rewrite !groups_get_set. case_decide; [|done]. subst. by rewrite E.
Qed.

Lemma group_fold_get l g k :
  Groups.get (fold_left group_step l g) k
  = match Groups.get g k, filter (fun p => Spec.label_of p = k) l with
    | None, [] => None
    | o, f => Some (default [] o ++ f)
    end.
Proof.
  revert g. induction l as [|p l IH]; intros g; simpl.
  - destruct (Groups.get g k); simpl; by rewrite ?app_nil_r.
  - rewrite IH, group_step_get, filter_cons.
    destruct (decide (Spec.label_of p = k)); [|done].
    destruct (Groups.get g k); simpl; by rewrite <- ?app_assoc.
Qed.

Lemma groupByCategory_get packages k :
  Groups.get (groupByCategory packages) k
  = match filter (fun p => Spec.label_of p = k) (JS.sort compare_priority packages) with
    | [] => None
    | f => Some f
    end.
Proof. unfold groupByCategory. by rewrite group_fold_get. Qed.

(** A run of entries with one label, none of which has a group yet. *)
Lemma group_fold_run_open l g k v :
  k ∉ g.*1 -> Forall (fun p => Spec.label_of p = k) l ->
  fold_left group_step l (g ++ [(k, v)]) = g ++ [(k, v ++ l)].
Proof.
  intros Hk Hl. revert v. induction Hl as [|p l Hp _ IH]; intros v; simpl.
  - by rewrite app_nil_r.
  - unfold group_step at 2. fold (Spec.label_of p). rewrite Hp.
    unfold Groups.has, Groups.push. rewrite !groups_get_last by done.
    rewrite groups_set_last by done. by rewrite IH, <- app_assoc.
Qed.

Lemma group_fold_run l g k :
  k ∉ g.*1 -> Forall (fun p => Spec.label_of p = k) l ->
  fold_left group_step l g = g ++ Spec.bucket k l.
Proof.
  intros Hk Hl. destruct Hl as [|p l Hp Hl]; simpl; [by rewrite app_nil_r|].
  unfold group_step at 2. fold (Spec.label_of p). rewrite Hp.
  unfold Groups.has, Groups.push. rewrite (groups_get_None g k) by done.
  rewrite groups_set_new by done. rewrite groups_get_last by done.
  rewrite groups_set_last by done. by rewrite group_fold_run_open.
Qed.

Lemma bucket_keys k l : (Spec.bucket k l).*1 ⊆ [k].
Proof. destruct l; simpl; set_solver. Qed.

Lemma label_of_in_category c k l :
  category_label c = k ->
  Forall (fun p => Spec.label_of p = k) (filter (Spec.in_category c) l).
Proof.
  intros <-. apply Forall_forall. intros p [Hp _]%list_elem_of_filter.
  unfold Spec.label_of. by rewrite Hp.
Qed.

Lemma groupByCategory_buckets packages :
  groupByCategory packages
  = fold_left group_step (filter Spec.uncategorised packages)
      (Spec.five_buckets packages).
Proof.
  unfold groupByCategory. rewrite sort_by_priority, !fold_left_app.
  f_equal. unfold Spec.five_buckets.
  set (F0 := filter (Spec.in_category "brand") packages).
  set (F1 := filter (Spec.in_category "chipset") packages).
  set (F2 := filter (Spec.in_category "generic") packages).
  set (F3 := filter (Spec.in_category "suspicious") packages).
  set (F4 := filter (Spec.in_category "system") packages).
  assert (forall k k' l, k' ≠ k -> k' ∉ (Spec.bucket k l).*1) as Hfresh.
  { intros k k' l Hne Hin%bucket_keys. set_solver. }
  rewrite (group_fold_run F0 [] "Brand-Specific Bloatware");
    [|set_solver|by apply label_of_in_category].
  rewrite app_nil_l.
  rewrite (group_fold_run F1 _ "Chipset-Specific Bloatware");
    [|by apply Hfresh|by apply label_of_in_category].
  rewrite (group_fold_run F2 _ "Generic Bloatware");
    [|rewrite fmap_app, not_elem_of_app; split; by apply Hfresh
     |by apply label_of_in_category].
  rewrite (group_fold_run F3 _ "Suspicious Packages");
    [|rewrite !fmap_app, !not_elem_of_app; repeat split; by apply Hfresh
     |by apply label_of_in_category].
  rewrite (group_fold_run F4 _ "Other Installed Apps");
    [|rewrite !fmap_app, !not_elem_of_app; repeat split; by apply Hfresh
     |by apply label_of_in_category].
  by rewrite <- !app_assoc.
Qed.

(** Claim C8.  For every collection, the sorted array is the entries of
    [brand], then [chipset], [generic], [suspicious] and [system], then the
    entries of any other category, each part in input order; the groups are
    the five labelled buckets in that order (a bucket with no entry is not
    created), followed by what the entries of other categories add; and a
    collection with no other category yields exactly the five buckets. *)
Theorem groupByCategory_priority_order (packages : list DetectedPackage) :
  JS.sort compare_priority packages
  = filter (Spec.in_category "brand") packages
    ++ filter (Spec.in_category "chipset") packages
    ++ filter (Spec.in_category "generic") packages
    ++ filter (Spec.in_category "suspicious") packages
    ++ filter (Spec.in_category "system") packages
    ++ filter Spec.uncategorised packages
  /\ groupByCategory packages
     = fold_left group_step (filter Spec.uncategorised packages)
         (Spec.five_buckets packages)
  /\ (filter Spec.uncategorised packages = [] ->
      groupByCategory packages = Spec.five_buckets packages).
Proof.
  split; [apply sort_by_priority|]. split; [apply groupByCategory_buckets|].
  intros H. by rewrite groupByCategory_buckets, H.
Qed.

(** ** Command synthesis *)

Lemma summary_step_commands acc p :
  commands (summary_step acc p)
  = commands acc ++ (if selected p then package_commands p else []).
Proof.
  unfold summary_step. destruct (selected p); repeat case_decide; simpl;
    by rewrite ?app_nil_r.
Qed.

Lemma summary_step_selectedCount acc p :
  selectedCount (summary_step acc p)
  = (selectedCount acc + (if selected p then 1 else 0))%nat.
Proof.
  unfold summary_step. destruct (selected p); repeat case_decide; simpl; lia.
Qed.

Lemma summarise_fold l acc :
  commands (fold_left summary_step l acc)
  = commands acc ++ concat (package_commands <$> filter Spec.is_selected l)
  /\ selectedCount (fold_left summary_step l acc)
     = (selectedCount acc + length (filter Spec.is_selected l))%nat.
Proof.
  revert acc. induction l as [|p l IH]; intros acc; simpl.
  - rewrite app_nil_r. split; [done|lia].
  - destruct (IH (summary_step acc p)) as [-> ->].
    rewrite summary_step_commands, summary_step_selectedCount, filter_cons.
    destruct (decide (Spec.is_selected p)) as [Hp|Hp]; unfold Spec.is_selected in Hp.
    + rewrite Hp. simpl. rewrite <- app_assoc. split; [done|lia].
    + apply not_true_is_false in Hp. rewrite Hp, app_nil_r. split; [done|lia].
Qed.

Lemma length_concat_commands l :
  length (concat (package_commands <$> l)) = (3 * length l)%nat.
Proof.
  induction l as [|p l IH]; [done|].
  rewrite fmap_cons, concat_cons, length_app, IH. simpl length. lia.
Qed.

(** Claim C2.  For every collection, the commands are, for each selected
    package in collection order, the three strings
    ["pm disable-user --user 0 <pkg>"], ["pm clear --user 0 <pkg>"] and
    ["pm uninstall --user 0 <pkg>"] in that order, hence three times as many
    as there are selected packages. *)
Theorem commands_three_per_selected (detectedPackages : list DetectedPackage) :
  commands (summarise detectedPackages)
  = concat
      ((fun pkg =>
          [ "pm disable-user --user 0 " +:+ packageName pkg;
            "pm clear --user 0 " +:+ packageName pkg;
            "pm uninstall --user 0 " +:+ packageName pkg ])
         <$> filter Spec.is_selected detectedPackages)
  /\ length (commands (summarise detectedPackages))
     = (3 * length (filter Spec.is_selected detectedPackages))%nat
  /\ selectedCount (summarise detectedPackages)
     = length (filter Spec.is_selected detectedPackages).
Proof.
  unfold summarise. destruct (summarise_fold detectedPackages
    {| commands := []; selectedCount := 0; bloatwareCount := 0;
       suspiciousCount := 0; systemCount := 0 |}) as [-> ->].
  simpl. split; [done|]. split; [apply length_concat_commands|done].
Qed.

(** ** The detection handler *)

Section AppFacts.

Variable getPackageMetadata : string -> option Metadata.t.
Variable bloatwareData : DeviceData.

Lemma trim_empty_parse input : JS.trim input = "" -> parsePackageList input = [].
Proof. unfold parsePackageList. by intros ->. Qed.

Lemma trimEnd_nonempty s :
  s ≠ "" -> Spec.leading_ws s = false -> JS.trimEnd s ≠ "".
Proof.
  destruct s as [|c s]; [done|]. simpl. intros _ ->.
  by destruct (JS.trimEnd s).
Qed.

Lemma trimStart_nonempty s : Spec.blank s = false -> JS.trimStart s ≠ "".
Proof.
  induction s as [|c s IH]; simpl; [done|].
  destruct (JS.isWhiteSpace c); simpl; [auto|done].
Qed.

(** The input is empty or white space only exactly when [!input.trim()]. *)
Lemma trim_empty_iff s : JS.trim s = "" <-> Spec.blank s = true.
Proof.
  split; [|apply trim_blank].
  destruct (Spec.blank s) eqn:E; [done|]. intros H. exfalso.
  apply (trimEnd_nonempty (JS.trimStart s)); [|apply leading_ws_trimStart|done].
  by apply trimStart_nonempty.
Qed.

(** Claim C9.  When the raw input is empty or white space only, or the
    normaliser yields no identifier, the handler reports an error, never
    calls the classifier and leaves the collection and the current step as
    they were; otherwise it reports no error and replaces the collection by
    the classifier's complete output. *)
Theorem detection_all_or_nothing (st : AppState) :
  (Spec.blank (packageInput st) = true
   \/ parsePackageList (packageInput st) = [] ->
     error (handleDetectBloatware getPackageMetadata bloatwareData st)
     = Some (if Spec.blank (packageInput st)
             then "Please paste your package list"
             else "No valid packages found in the input")
     /\ detectedPackages (handleDetectBloatware getPackageMetadata bloatwareData st)
        = detectedPackages st
     /\ currentStep (handleDetectBloatware getPackageMetadata bloatwareData st)
        = currentStep st
     /\ Forall (fun a => is_classifier_call a = false
                         /\ is_collection_write a = false)
          (handleDetectBloatware_trace getPackageMetadata bloatwareData st))
  /\ (~ (Spec.blank (packageInput st) = true
         \/ parsePackageList (packageInput st) = []) ->
     error (handleDetectBloatware getPackageMetadata bloatwareData st) = None
     /\ detectedPackages (handleDetectBloatware getPackageMetadata bloatwareData st)
        = detectBloatware getPackageMetadata
            (parsePackageList (packageInput st)) bloatwareData
     /\ currentStep (handleDetectBloatware getPackageMetadata bloatwareData st)
        = 2%nat
     /\ isProcessing (handleDetectBloatware getPackageMetadata bloatwareData st)
        = false).
Proof.
  unfold handleDetectBloatware, handleDetectBloatware_trace, JS.truthy.
  destruct (Spec.blank (packageInput st)) eqn:Hb.
  - apply trim_empty_iff in Hb.
    rewrite decide_False by tauto. split; [|tauto]. intros _. simpl.
    repeat split; try done. by repeat constructor.
  - assert (JS.trim (packageInput st) ≠ "") as Ht.
    { rewrite trim_empty_iff. by rewrite Hb. }
    rewrite decide_True by done.
    destruct (parsePackageList (packageInput st)) as [|x l] eqn:E; simpl.
    + split; [|tauto]. intros _. repeat split; try done. by repeat constructor.
    + split; [intros [?|?]; done|]. intros _. by repeat split.
Qed.

End AppFacts.

(** ** The selection handlers *)

Lemma same_but_selected_set b p : Spec.same_but_selected p (set_selected b p).
Proof. by repeat split. Qed.

Lemma label_of_set_selected b p : Spec.label_of (set_selected b p) = Spec.label_of p.
Proof. done. Qed.

Lemma set_selected_same p : set_selected (selected p) p = p.
Proof. by destruct p. Qed.

Lemma NoDup_fmap_eq {A B} (f : A -> B) (l : list A) x y :
  NoDup (f <$> l) -> x ∈ l -> y ∈ l -> f x = f y -> x = y.
Proof.
  induction l as [|a l IH]; [by intros _ ?%elem_of_nil|].
  rewrite fmap_cons, NoDup_cons, !elem_of_cons.
  intros [Ha Hl] [->|Hx] [->|Hy] E; auto.
  - destruct Ha. rewrite E. by apply list_elem_of_fmap_2.
  - destruct Ha. rewrite <- E. by apply list_elem_of_fmap_2.
Qed.

Lemma Forall2_fmap_same {A} (P : A -> A -> Prop) (f : A -> A) (l : list A) :
  Forall (fun x => P x (f x)) l -> Forall2 P l (f <$> l).
Proof. induction 1; simpl; by constructor. Qed.

Lemma Forall2_impl_elem {A} (P Q : A -> A -> Prop) (l k : list A) :
  Forall2 P l k -> (forall x y, x ∈ l -> P x y -> Q x y) -> Forall2 Q l k.
Proof.
  induction 1 as [|x y l k Hxy _ IH]; intros HPQ; constructor.
  - apply HPQ; [apply list_elem_of_here|done].
  - apply IH. intros x' y' Hx'. apply HPQ. by apply list_elem_of_further.
Qed.

Lemma Forall2_same {A} (P : A -> A -> Prop) (l : list A) :
  Forall (fun x => P x x) l -> Forall2 P l l.
Proof. induction 1; by constructor. Qed.

Lemma catPkgs_entries packages label :
  default [] (Groups.get (groupByCategory packages) label)
  = Spec.category_entries packages label.
Proof.
  rewrite groupByCategory_get. fold (Spec.category_entries packages label).
  by destruct (Spec.category_entries packages label).
Qed.

Lemma elem_of_category_entries packages label p :
  p ∈ Spec.category_entries packages label <-> p ∈ packages /\ Spec.label_of p = label.
Proof.
  unfold Spec.category_entries. rewrite list_elem_of_filter.
  unfold compare_priority.
  rewrite (elem_of_sort (fun p => category_priority (category p))). tauto.
Qed.

Lemma elem_of_names packages label p :
  packageName p ∈ (list_to_set (packageName <$> Spec.category_entries packages label) : gset string)
  <-> Spec.targeted packages label p.
Proof.
  rewrite elem_of_list_to_set, list_elem_of_fmap. unfold Spec.targeted.
  split.
  - intros (q & E & [Hq Hl]%elem_of_category_entries). by exists q.
  - intros (q & Hq & Hl & E). exists q. split; [done|].
    by apply elem_of_category_entries.
Qed.

Lemma needsUpdate_false target l :
  existsb (fun p => negb (eqb (selected p) target)) l = false
  <-> Forall (fun p => selected p = target) l.
Proof.
  induction l as [|p l IH]; simpl; [by split|].
  rewrite orb_false_iff, IH, Forall_cons, negb_false_iff, eqb_true_iff. tauto.
Qed.

Section ToggleAll.

Variables (packages : list DetectedPackage) (label : string) (target : bool).

Let result := after_handler packages (handleToggleAll packages label target).

Lemma handleToggleAll_cases :
  (handleToggleAll packages label target = None
   /\ Forall (fun p => selected p = target) (Spec.category_entries packages label))
  \/ handleToggleAll packages label target
     = Some ((fun p =>
                if bool_decide (packageName p ∈
                     (list_to_set (packageName <$> Spec.category_entries packages label)
                      : gset string))
                   && negb (eqb (selected p) target)
                then set_selected target p else p) <$> packages).
Proof.
  unfold handleToggleAll. cbv zeta. rewrite catPkgs_entries.
  destruct (Spec.category_entries packages label) as [|p l] eqn:E.
  { left. split; [done|constructor]. }
  rewrite <- E. replace (length (Spec.category_entries packages label) =? 0)%nat
    with false by by rewrite E.
  destruct (existsb _ _) eqn:Hn; simpl; [by right|left].
  split; [done|]. by apply needsUpdate_false.
Qed.

Lemma toggle_all_frame :
  Forall2 (fun p p' => p' = p
                       \/ (Spec.targeted packages label p
                           /\ Spec.same_but_selected p p'
                           /\ selected p' = target))
    packages result.
Proof.
  unfold result. destruct handleToggleAll_cases as [[-> _]| ->]; simpl.
  - apply Forall2_same, Forall_forall. by left.
  - apply Forall2_fmap_same, Forall_forall. intros p _.
    destruct (bool_decide _) eqn:Hb; simpl; [|by left].
    destruct (negb _); [|by left]. right.
    apply bool_decide_eq_true in Hb. apply elem_of_names in Hb.
    split; [done|]. split; [apply same_but_selected_set|done].
Qed.

Lemma toggle_all_noop :
  (forall p, p ∈ packages -> Spec.targeted packages label p -> selected p = target) ->
  handleToggleAll packages label target = None /\ result = packages.
Proof.
  intros H. unfold result.
  destruct handleToggleAll_cases as [[-> _]|E]; [done|].
  exfalso. revert E. unfold handleToggleAll. cbv zeta. rewrite catPkgs_entries.
  destruct (Spec.category_entries packages label) as [|p l] eqn:El; [done|].
  rewrite <- El. replace (length (Spec.category_entries packages label) =? 0)%nat
    with false by by rewrite El.
  assert (existsb (fun p => negb (eqb (selected p) target))
            (Spec.category_entries packages label) = false) as ->; [|done].
  apply needsUpdate_false, Forall_forall.
  intros q [Hq Hl]%elem_of_category_entries. apply H; [done|]. by exists q.
Qed.

Lemma toggle_all_effect p' :
  p' ∈ result -> Spec.label_of p' = label -> selected p' = target.
Proof.
  unfold result. destruct handleToggleAll_cases as [[-> Hall]| ->]; simpl.
  - intros Hp Hl. rewrite Forall_forall in Hall. apply Hall.
    by apply elem_of_category_entries.
  - intros (p & -> & Hp)%list_elem_of_fmap Hl.
    assert (Spec.label_of p = label) as Hlp.
    { by destruct (_ && _). }
    assert (bool_decide (packageName p ∈
              (list_to_set (packageName <$> Spec.category_entries packages label)
               : gset string)) = true) as ->.
    { apply bool_decide_eq_true, elem_of_names. by exists p. }
    simpl. destruct (eqb (selected p) target) eqn:Eb; simpl; [|done].
    by apply eqb_prop in Eb.
Qed.

Lemma toggle_all_other_categories :
  NoDup (packageName <$> packages) ->
  Forall2 (fun p p' => Spec.label_of p ≠ label -> p' = p) packages result.
Proof.
  intros Hnd. eapply Forall2_impl_elem; [apply toggle_all_frame|].
  intros p p' Hp [?|[(q & Hq & Hl & E) _]] Hne; [done|].
  assert (q = p) as -> by by eapply NoDup_fmap_eq. done.
Qed.

End ToggleAll.

Section ToggleOne.

Variables (packages : list DetectedPackage) (name : string).

Let result := after_handler packages (handleTogglePackage packages name).

Lemma toggle_one_frame :
  Forall2 (fun p p' => (packageName p ≠ name /\ p' = p)
                       \/ (packageName p = name
                           /\ Spec.same_but_selected p p'
                           /\ selected p' = negb (selected p)))
    packages result.
Proof.
  unfold result, handleTogglePackage. simpl.
  apply Forall2_fmap_same, Forall_forall. intros p _.
  case_decide; [right|by left].
  split; [done|]. split; [apply same_but_selected_set|done].
Qed.

Lemma toggle_one_noop :
  (forall p, p ∈ packages -> packageName p ≠ name) -> result = packages.
Proof.
  intros H. unfold result, handleTogglePackage. simpl.
  apply fmap_id_on, Forall_forall. intros p Hp.
  rewrite decide_False; [done|]. by apply H.
Qed.

End ToggleOne.

(** Claim C7.  For every collection: toggling a category to a target value
    gives a collection of the same length in which an entry either is
    unchanged or carries a targeted identifier and differs in [selected]
    only, now equal to the target; when every targeted entry already has the
    target value the handler changes nothing; afterwards every entry of the
    category has the target value; and when identifiers are unique every
    entry of another category is unchanged.  Toggling one package changes
    only the entries with that identifier, and only their [selected] flag,
    and changes nothing when no entry has that identifier. *)
Theorem selection_toggle_frame (packages : list DetectedPackage) :
  (forall label target,
      let result := after_handler packages (handleToggleAll packages label target) in
      Forall2 (fun p p' => p' = p
                           \/ (Spec.targeted packages label p
                               /\ Spec.same_but_selected p p'
                               /\ selected p' = target))
        packages result
      /\ ((forall p, p ∈ packages -> Spec.targeted packages label p ->
             selected p = target) ->
          handleToggleAll packages label target = None /\ result = packages)
      /\ (forall p', p' ∈ result -> Spec.label_of p' = label -> selected p' = target)
      /\ (NoDup (packageName <$> packages) ->
          Forall2 (fun p p' => Spec.label_of p ≠ label -> p' = p) packages result))
  /\ (forall name,
        let result := after_handler packages (handleTogglePackage packages name) in
        Forall2 (fun p p' => (packageName p ≠ name /\ p' = p)
                             \/ (packageName p = name
                                 /\ Spec.same_but_selected p p'
                                 /\ selected p' = negb (selected p)))
          packages result
        /\ ((forall p, p ∈ packages -> packageName p ≠ name) -> result = packages)).
Proof.
  split.
  - intros label target. cbv zeta. split; [apply toggle_all_frame|].
    split; [apply toggle_all_noop|]. split; [apply toggle_all_effect|].
    apply toggle_all_other_categories.
  - intros name. cbv zeta. split; [apply toggle_one_frame|apply toggle_one_noop].
Qed.

(** ** Select all, then deselect all, in one category *)

Lemma Forall2_compose {A} (P Q R : A -> A -> Prop) (l k m : list A) :
  (forall x y z, P x y -> Q y z -> R x z) ->
  Forall2 P l k -> Forall2 Q k m -> Forall2 R l m.
Proof.
  intros HPQ H. revert m. induction H as [|x y l k Hxy _ IH]; intros m Hm;
    inversion_clear Hm; constructor; eauto.
Qed.

Lemma toggle_all_names packages label target :
  packageName <$> after_handler packages (handleToggleAll packages label target)
  = packageName <$> packages.
Proof.
  pose proof (toggle_all_frame packages label target) as H.
  induction H as [|p p' l l' Hp _ IH]; [done|].
  rewrite !fmap_cons, IH. f_equal.
  destruct Hp as [->|(_ & (E & _) & _)]; done.
Qed.

Lemma select_then_deselect_category packages label :
  let r1 := after_handler packages (handleToggleAll packages label true) in
  let r2 := after_handler r1 (handleToggleAll r1 label false) in
  (forall p, p ∈ r2 -> Spec.label_of p = label -> selected p = false)
  /\ (NoDup (packageName <$> packages) ->
      Forall2 (fun p p' => Spec.label_of p ≠ label -> p' = p) packages r2).
Proof.
  cbv zeta. split; [apply toggle_all_effect|]. intros Hnd.
  eapply Forall2_compose;
    [|by apply toggle_all_other_categories
     |apply toggle_all_other_categories; by rewrite toggle_all_names].
  simpl. intros x y z Hxy Hyz Hx. pose proof (Hxy Hx) as ->. by apply Hyz.
Qed.

(** ** Worked examples *)

Example first_seen_sample :
  Spec.first_seen ["a"; "b"; "a"; "c"; "b"] = ["a"; "b"; "c"].
Proof. reflexivity. Qed.

Example parse_adb_output :
  parsePackageList Sample.adb_output
  = ["com.android.egg"; "com.unknown.test123"; "com.android.chrome"].
Proof. vm_compute. reflexivity. Qed.

Example parse_mixed_lines :
  parsePackageList
    ("  package:com.android.egg  " +:+ String JS.LF ("   " +:+ String JS.LF
       ("package:" +:+ String JS.LF "com.android.chrome")))
  = ["com.android.egg"; "com.android.chrome"].
Proof. vm_compute. reflexivity. Qed.

Example detect_end_to_end :
  detectBloatware Sample.no_metadata (parsePackageList Sample.adb_output) Sample.db
  = [Sample.egg; Sample.unknown; Sample.chrome].
Proof. vm_compute. reflexivity. Qed.

Example commands_end_to_end :
  commands (summarise [Sample.egg; Sample.unknown; Sample.chrome])
  = [ "pm disable-user --user 0 com.android.egg";
      "pm clear --user 0 com.android.egg";
      "pm uninstall --user 0 com.android.egg" ].
Proof. vm_compute. reflexivity. Qed.

Example detect_duplicate_lines :
  packageName <$> detectBloatware Sample.no_metadata ["a.b.c"; "a.b.c"] Sample.db
  = ["a.b.c"].
Proof. vm_compute. reflexivity. Qed.

Example detect_overlap_is_system :
  category <$>
    detectBloatware Sample.no_metadata ["com.android.egg"]
      {| recognisedPackages := ["com.android.egg"];
         bloatwarePackages := [PkgString "com.android.egg"] |}
  = ["system"].
Proof. vm_compute. reflexivity. Qed.

Example categorise_upper_case :
  categorisePackage "COM.Samsung.Android.App" = "brand"
  /\ categorisePackage "vendor.QTI.imsrcs" = "chipset"
  /\ categorisePackage "org.samsung.app" = "generic"
  /\ categorisePackage "xcom.samsung.app" = "generic".
Proof. vm_compute. done. Qed.

Example group_sample :
  groupByCategory [Sample.chrome; Sample.egg; Sample.bixby; Sample.unknown]
  = [ ("Brand-Specific Bloatware", [Sample.bixby]);
      ("Generic Bloatware", [Sample.egg]);
      ("Suspicious Packages", [Sample.unknown]);
      ("Other Installed Apps", [Sample.chrome]) ].
Proof. vm_compute. reflexivity. Qed.

(** ** Instances of the theorems at the sample data *)

(** Claim C4 at a list with a repeated identifier. *)
Lemma detectBloatware_first_occurrence_witness :
  detectBloatware Sample.no_metadata
    ["com.android.egg"; "com.android.chrome"; "com.android.egg"] Sample.db
  = detectBloatware Sample.no_metadata
      (["com.android.egg"; "com.android.chrome"] ++ []) Sample.db.
Proof.
  destruct (detectBloatware_first_occurrence Sample.no_metadata
              ["com.android.egg"; "com.android.chrome"; "com.android.egg"]
              Sample.db) as (_ & _ & _ & Hdup).
  apply (Hdup ["com.android.egg"; "com.android.chrome"] "com.android.egg" []).
  - reflexivity.
  - apply list_elem_of_here.
Defined.

(** Claim C5 at a Samsung package listed as bloatware. *)
Lemma bloatware_branch_category_witness : category Sample.bixby = "brand".
Proof.
  apply (bloatware_branch_category Sample.no_metadata
           ["com.samsung.android.bixby.agent"] Sample.db Sample.bixby).
  - vm_compute. apply list_elem_of_here.
  - simpl. intros H. apply list_elem_of_singleton in H. discriminate H.
  - simpl. apply list_elem_of_further, list_elem_of_here.
  - exists "com.samsung.". split; [apply list_elem_of_here|].
    exists "android.bixby.agent". reflexivity.
Defined.

(** Claim C6, amended, at three well-formed lines. *)
Lemma parsePackageList_idempotent_on_clean_witness :
  parsePackageList (JS.join_lines (parsePackageList Sample.adb_output))
  = parsePackageList Sample.adb_output.
Proof.
  apply parsePackageList_idempotent_on_clean.
  rewrite parse_adb_output.
  repeat (apply Forall_cons_2;
          [split; [reflexivity|apply startsWith_false; reflexivity]|]).
  apply Forall_nil_2.
Defined.

(** Claim C7 at a category whose only entry is already selected. *)
Lemma selection_toggle_frame_witness :
  handleToggleAll [Sample.bixby] "Brand-Specific Bloatware" true = None.
Proof.
  destruct (selection_toggle_frame [Sample.bixby]) as [Hall _].
  destruct (Hall "Brand-Specific Bloatware" true) as (_ & Hnoop & _).
  apply Hnoop. intros p Hp _. apply list_elem_of_singleton in Hp.
  rewrite Hp. reflexivity.
Defined.

(** Claim C8 at a collection with four of the five categories. *)
Lemma groupByCategory_priority_order_witness :
  groupByCategory [Sample.chrome; Sample.egg; Sample.bixby; Sample.unknown]
  = Spec.five_buckets [Sample.chrome; Sample.egg; Sample.bixby; Sample.unknown].
Proof.
  destruct (groupByCategory_priority_order
              [Sample.chrome; Sample.egg; Sample.bixby; Sample.unknown])
    as (_ & _ & Hclosed).
  apply Hclosed. vm_compute. reflexivity.
Defined.

(** Claim C9 at a submission of three spaces. *)
Lemma detection_all_or_nothing_witness :
  error (handleDetectBloatware Sample.no_metadata Sample.db Sample.blank_submission)
  = Some "Please paste your package list"
  /\ detectedPackages
       (handleDetectBloatware Sample.no_metadata Sample.db Sample.blank_submission)
     = [Sample.egg].
Proof.
  destruct (detection_all_or_nothing Sample.no_metadata Sample.db
              Sample.blank_submission) as [Hfail _].
  destruct Hfail as (He & Hd & _); [left; reflexivity|].
  split; [exact He|exact Hd].
Defined.

(** * Further properties of the code *)

(** ** The normaliser *)

Lemma split_lines_app s t :
  JS.split_lines (s +:+ String JS.LF t) = JS.split_lines s ++ JS.split_lines t.
Proof.
  induction s as [|c s IH]; simpl; [done|].
  rewrite IH. destruct (Ascii.eqb c JS.LF); [done|].
  by destruct (split_lines_cons s) as (l & ls & ->).
Qed.

Lemma payload_lines_app s t :
  Spec.payload_lines (s +:+ String JS.LF t)
  = Spec.payload_lines s ++ Spec.payload_lines t.
Proof.
  unfold Spec.payload_lines. by rewrite split_lines_app, fmap_app, filter_app.
Qed.

(** Property X1.
    Two texts put on consecutive lines are parsed independently: nothing is
    merged, dropped or deduplicated across the line break. *)
Theorem parsePackageList_concat (s t : string) :
  parsePackageList (s +:+ String JS.LF t)
  = parsePackageList s ++ parsePackageList t.
Proof. by rewrite !parsePackageList_lines, payload_lines_app, fmap_app. Qed.

Lemma filter_nil_Forall {A} (P : A -> Prop) `{!forall a, Decision (P a)} l :
  filter P l = [] <-> Forall (fun a => ~ P a) l.
Proof.
  split; [|apply filter_none].
  intros Hnil. apply Forall_forall. intros a Ha HP.
  by apply (filter_nil_not_elem_of P l a).
Qed.

(** Property X2.
    The normaliser returns no identifier exactly when every line of the
    input, once trimmed, is empty or a bare ["package:"]. *)
Theorem parsePackageList_empty_iff (input : string) :
  parsePackageList input = []
  <-> Forall (fun line => JS.trim line = "" \/ JS.trim line = "package:")
        (JS.split_lines input).
Proof.
  rewrite parsePackageList_lines.
  assert (forall l : list string, stripPrefix <$> l = [] <-> l = []) as ->.
  { intros l. split; [apply fmap_nil_inv|by intros ->]. }
  unfold Spec.payload_lines. rewrite filter_nil_Forall, Forall_fmap.
  apply Forall_iff. intros line. simpl.
  destruct (decide (JS.trim line = "")), (decide (JS.trim line = "package:")); tauto.
Qed.

Lemma trim_prefixed x :
  x ≠ "" -> Spec.trailing_ws x = false -> JS.trim ("package:" +:+ x) = "package:" +:+ x.
Proof.
  intros Hx Ht. apply trim_id; [done|]. by rewrite trailing_ws_app.
Qed.

Lemma has_LF_app a b : Spec.has_LF (a +:+ b) = Spec.has_LF a || Spec.has_LF b.
Proof. induction a as [|c a IH]; simpl; [done|]. by rewrite IH, orb_assoc. Qed.

(** Property X3.
    The listing format of [pm list packages] round-trips: identifiers that
    are non-empty, do not end in white space and hold no line feed, each
    written after ["package:"] on a line of its own, are read back as they
    were. *)
Theorem parsePackageList_adb_roundtrip (ids : list string) :
  Forall (fun x => x ≠ "" /\ Spec.trailing_ws x = false /\ Spec.has_LF x = false) ids ->
  parsePackageList (JS.join_lines ((fun x => "package:" +:+ x) <$> ids)) = ids.
Proof.
  intros H. destruct ids as [|x0 ids0]; [done|]. set (ids := x0 :: ids0) in *.
  set (ls := (fun x => "package:" +:+ x) <$> ids).
  assert (Forall (fun l => l ≠ "" /\ Spec.leading_ws l = false
                           /\ Spec.trailing_ws l = false /\ Spec.has_LF l = false
                           /\ exists x, l = "package:" +:+ x /\ x ≠ "") ls) as Hls.
  { apply Forall_fmap. eapply Forall_impl; [exact H|]. intros x (? & ? & ?).
    cbv beta. split; [by destruct x|]. split; [done|].
    split; [by rewrite trailing_ws_app|]. split; [by rewrite has_LF_app|].
    by exists x. }
  unfold parsePackageList.
  assert (JS.trim (JS.join_lines ls) = JS.join_lines ls) as ->.
  { apply trim_id.
    - subst ls ids. rewrite fmap_cons. by rewrite leading_ws_join.
    - apply trailing_ws_join. eapply Forall_impl; [exact Hls|]. by intros l (? & ? & ? & ?). }
  rewrite split_join_lines; [|done|].
  2:{ eapply Forall_impl; [exact Hls|]. by intros l (? & ? & ? & ? & ?). }
  rewrite (fmap_id_on JS.trim ls).
  2:{ eapply Forall_impl; [exact Hls|]. intros l (? & ? & ? & ?). by apply trim_id. }
  rewrite (filter_id JS.truthy ls).
  2:{ eapply Forall_impl; [exact Hls|]. by intros l (? & ?). }
  subst ls. rewrite <- list_fmap_compose.
  rewrite (fmap_id_on (stripPrefix ∘ _) ids).
  2:{ apply Forall_forall. intros x _. simpl. apply stripPrefix_prefixed. }
  apply filter_id. eapply Forall_impl; [exact H|]. by intros x (? & ?).
Qed.

(** Property X3 at the sample data. *)
Lemma parsePackageList_adb_roundtrip_witness :
  parsePackageList
    (JS.join_lines ((fun x => "package:" +:+ x) <$> ["com.android.egg"; " package:odd"]))
  = ["com.android.egg"; " package:odd"].
Proof.
  apply parsePackageList_adb_roundtrip.
  repeat (apply Forall_cons_2; [split; [discriminate|split; reflexivity]|]).
  apply Forall_nil_2.
Defined.

(** ** The classifier *)

Lemma first_seen_app l1 l2 :
  Spec.first_seen (l1 ++ l2)
  = Spec.first_seen l1 ++ filter (fun x => x ∉ l1) (Spec.first_seen l2).
Proof.
  induction l1 as [|x l1 IH]; simpl.
  - symmetry. apply filter_id, Forall_forall. intros y _. apply not_elem_of_nil.
  - f_equal. rewrite IH, filter_app, list_filter_filter. f_equal.
    apply list_filter_iff. intros y. rewrite not_elem_of_cons. tauto.
Qed.

Lemma length_first_seen l : length (Spec.first_seen l) ≤ length l.
Proof.
  induction l as [|x l IH]; simpl; [done|].
  pose proof (length_filter (fun y => y ≠ x) (Spec.first_seen l)). lia.
Qed.

Lemma first_seen_NoDup l : NoDup l -> Spec.first_seen l = l.
Proof.
  induction 1 as [|x l Hx _ IH]; simpl; [done|].
  rewrite IH. f_equal. apply filter_id, Forall_forall. by intros y Hy ->.
Qed.

Lemma categorisePackage_range name :
  categorisePackage name ∈ ["brand"; "chipset"; "generic"].
Proof.
  unfold categorisePackage. repeat case_match; set_solver.
Qed.

Section ClassifierMore.

Variable getPackageMetadata : string -> option Metadata.t.

(** Property X4.
    The three optional fields of an entry are read from the metadata table
    and from nowhere else, in every branch; without a metadata record all
    three are absent. *)
Theorem detectBloatware_metadata_fields (pkgs : list string) (db : DeviceData) :
  Forall (fun d =>
            let meta := getPackageMetadata (packageName d) in
            safetyRating d = meta ≫= Metadata.safetyRating
            /\ removalImpact d = meta ≫= Metadata.removalImpact
            /\ packageCategory d = meta ≫= Metadata.category)
    (detectBloatware getPackageMetadata pkgs db).
Proof.
  apply Forall_forall. intros d Hd%elem_of_detectBloatware. cbv zeta.
  remember (packageName d) as n.
  destruct (classify_cases getPackageMetadata db n)
    as [[_ E]|[(_ & _ & E)|(_ & _ & E)]]; rewrite <- Hd in E; by rewrite E.
Qed.

Lemma classify_selection_facts db n :
  let d := classify getPackageMetadata (list_to_set (recognisedPackages db))
             (build_index (bloatwarePackages db)) n in
  category d ∈ Spec.the_five_categories
  /\ (selected d = true <-> category d ∈ ["brand"; "chipset"; "generic"])
  /\ (selected d = true <->
      (n ∉ recognisedPackages db) /\ n ∈ packageId <$> bloatwarePackages db).
Proof.
  cbv zeta. pose proof (categorisePackage_range n) as Hc.
  destruct (classify_cases getPackageMetadata db n)
    as [[Hr E]|[(Hr & Hb & E)|(Hr & Hb & E)]]; rewrite E; simpl.
  - split; [set_solver|]. split; (split; [done|]); [set_solver|tauto].
  - unfold Spec.the_five_categories. split; [set_solver|]. by split.
  - split; [set_solver|]. split; (split; [done|]); [set_solver|tauto].
Qed.

Lemma detectBloatware_selection_facts pkgs db :
  Forall (fun d =>
            category d ∈ Spec.the_five_categories
            /\ (selected d = true <-> category d ∈ ["brand"; "chipset"; "generic"]))
    (detectBloatware getPackageMetadata pkgs db).
Proof.
  apply Forall_forall. intros d Hd%elem_of_detectBloatware.
  destruct (classify_selection_facts db (packageName d)) as (H1 & H2 & _).
  rewrite <- Hd in H1, H2. by split.
Qed.

(** Property X5.
    Every category the classifier assigns is one of the five, and an entry
    is selected by default exactly when its category is one of the three
    bloatware categories, that is, when its identifier is listed as
    bloatware and not recognised. *)
Theorem detectBloatware_default_selection (pkgs : list string) (db : DeviceData) :
  Forall (fun d =>
            category d ∈ Spec.the_five_categories
            /\ (selected d = true <-> category d ∈ ["brand"; "chipset"; "generic"])
            /\ (selected d = true <->
                (packageName d ∉ recognisedPackages db)
                /\ packageName d ∈ packageId <$> bloatwarePackages db))
    (detectBloatware getPackageMetadata pkgs db).
Proof.
  apply Forall_forall. intros d Hd%elem_of_detectBloatware.
  pose proof (classify_selection_facts db (packageName d)) as H.
  cbv zeta in H. by rewrite <- Hd in H.
Qed.

Lemma detectBloatware_nil pkgs db :
  detectBloatware getPackageMetadata pkgs db = [] -> pkgs = [].
Proof.
  intros H.
  assert (packageName <$> detectBloatware getPackageMetadata pkgs db = []) as Hn
    by by rewrite H.
  rewrite detectBloatware_names in Hn. by destruct pkgs.
Qed.

(** Property X6.
    The output never has more entries than the input has lines, is empty
    only for an empty input, and for an input without repeated identifiers
    it has exactly the input's identifiers in the input's order. *)
Theorem detectBloatware_size (pkgs : list string) (db : DeviceData) :
  length (detectBloatware getPackageMetadata pkgs db) ≤ length pkgs
  /\ (detectBloatware getPackageMetadata pkgs db = [] <-> pkgs = [])
  /\ (NoDup pkgs ->
      packageName <$> detectBloatware getPackageMetadata pkgs db = pkgs).
Proof.
  split; [|split].
  - rewrite <- (length_fmap packageName), detectBloatware_names.
    apply length_first_seen.
  - split; [apply detectBloatware_nil|by intros ->].
  - intros Hnd. by rewrite detectBloatware_names, first_seen_NoDup.
Qed.

(** Property X7.
    Detection of a list in two parts: the entries of the first part,
    followed by the entries of the second part whose identifier did not
    occur in the first. *)
Theorem detectBloatware_app (l1 l2 : list string) (db : DeviceData) :
  detectBloatware getPackageMetadata (l1 ++ l2) db
  = detectBloatware getPackageMetadata l1 db
    ++ filter (fun d => packageName d ∉ l1)
         (detectBloatware getPackageMetadata l2 db).
Proof.
  rewrite !detectBloatware_classify, first_seen_app, fmap_app. f_equal.
  rewrite filter_fmap. f_equal. apply list_filter_iff. intros n.
  by rewrite packageName_classify.
Qed.

(** Property X8.
    Each identifier is classified on its own: the entry it gets in any run
    is the entry it gets when it is the only line of the input. *)
Theorem detectBloatware_pointwise (pkgs : list string) (db : DeviceData)
    (d : DetectedPackage) :
  d ∈ detectBloatware getPackageMetadata pkgs db ->
  detectBloatware getPackageMetadata [packageName d] db = [d].
Proof.
  intros Hd%elem_of_detectBloatware.
  rewrite detectBloatware_classify. simpl. by rewrite <- Hd.
Qed.

(** Property X9.
    The groups of a classifier output are exactly the five labelled buckets:
    the default priority and the fallback label are never used on it. *)
Theorem groupByCategory_of_detection (pkgs : list string) (db : DeviceData) :
  groupByCategory (detectBloatware getPackageMetadata pkgs db)
  = Spec.five_buckets (detectBloatware getPackageMetadata pkgs db).
Proof.
  rewrite groupByCategory_buckets.
  rewrite filter_none; [done|].
  eapply Forall_impl; [apply detectBloatware_selection_facts|].
  intros d (Hc & _). unfold Spec.uncategorised. tauto.
Qed.

End ClassifierMore.

(** Property X6 at the sample data. *)
Lemma detectBloatware_size_witness :
  packageName <$>
    detectBloatware Sample.no_metadata
      ["com.android.chrome"; "com.android.egg"] Sample.db
  = ["com.android.chrome"; "com.android.egg"].
Proof.
  destruct (detectBloatware_size Sample.no_metadata
              ["com.android.chrome"; "com.android.egg"] Sample.db)
    as (_ & _ & Hnd).
  apply Hnd. apply NoDup_cons_2; [|apply NoDup_singleton].
  intros H. apply list_elem_of_singleton in H. discriminate H.
Defined.

(** Property X8 at the sample data. *)
Lemma detectBloatware_pointwise_witness :
  detectBloatware Sample.no_metadata ["com.android.egg"] Sample.db = [Sample.egg].
Proof.
  apply (detectBloatware_pointwise Sample.no_metadata
           (parsePackageList Sample.adb_output) Sample.db Sample.egg).
  vm_compute. apply list_elem_of_here.
Defined.

(** ** The summary counters and the command display *)

Lemma filter_ext_in {A} (P Q : A -> Prop) `{!forall a, Decision (P a)}
    `{!forall a, Decision (Q a)} (l : list A) :
  Forall (fun a => P a <-> Q a) l -> filter P l = filter Q l.
Proof.
  induction 1 as [|a l Ha _ IH]; [done|].
  rewrite !filter_cons, IH. destruct (decide (P a)), (decide (Q a)); tauto.
Qed.

Lemma summary_step_counters acc p :
  suspiciousCount (summary_step acc p)
  = (suspiciousCount acc + length (filter (Spec.in_category "suspicious") [p]))%nat
  /\ systemCount (summary_step acc p)
     = (systemCount acc + length (filter (Spec.in_category "system") [p]))%nat
  /\ bloatwareCount (summary_step acc p)
     = (bloatwareCount acc + length (filter Spec.is_bloatware_category [p]))%nat.
Proof.
  unfold summary_step, Spec.is_bloatware_category.
  rewrite !filter_cons, !filter_nil. unfold Spec.in_category at 1 2.
  destruct (selected p); repeat case_decide; simpl; try lia; try tauto;
    try congruence.
Qed.

Lemma summarise_counters_fold l acc :
  suspiciousCount (fold_left summary_step l acc)
  = (suspiciousCount acc + length (filter (Spec.in_category "suspicious") l))%nat
  /\ systemCount (fold_left summary_step l acc)
     = (systemCount acc + length (filter (Spec.in_category "system") l))%nat
  /\ bloatwareCount (fold_left summary_step l acc)
     = (bloatwareCount acc + length (filter Spec.is_bloatware_category l))%nat.
Proof.
  revert acc. induction l as [|p l IH]; intros acc.
  - simpl. repeat split; lia.
  - cbn [fold_left]. destruct (IH (summary_step acc p)) as (-> & -> & ->).
    destruct (summary_step_counters acc p) as (-> & -> & ->).
    change (p :: l) with ([p] ++ l). rewrite !filter_app, !length_app. lia.
Qed.

Lemma length_three_filters (l : list DetectedPackage) :
  (length (filter Spec.is_bloatware_category l)
   + length (filter (Spec.in_category "suspicious") l)
   + length (filter (Spec.in_category "system") l))%nat = length l.
Proof.
  induction l as [|p l IH]; [done|].
  rewrite !filter_cons. unfold Spec.is_bloatware_category at 1, Spec.in_category at 1 3.
  repeat case_decide; simpl; try lia; try tauto; congruence.
Qed.

Lemma summarise_counters_eq (l : list DetectedPackage) :
  suspiciousCount (summarise l) = length (filter (Spec.in_category "suspicious") l)
  /\ systemCount (summarise l) = length (filter (Spec.in_category "system") l)
  /\ bloatwareCount (summarise l) = length (filter Spec.is_bloatware_category l).
Proof.
  unfold summarise.
  destruct (summarise_counters_fold l
    {| commands := []; selectedCount := 0; bloatwareCount := 0;
       suspiciousCount := 0; systemCount := 0 |}) as (-> & -> & ->).
  done.
Qed.

(** Property X10.
    The three category counters partition the collection: [suspiciousCount]
    and [systemCount] count the entries of their category, [bloatwareCount]
    counts every other entry, and together they add up to the total shown
    beside them. *)
Theorem summarise_counters (detectedPackages : list DetectedPackage) :
  suspiciousCount (summarise detectedPackages)
  = length (filter (Spec.in_category "suspicious") detectedPackages)
  /\ systemCount (summarise detectedPackages)
     = length (filter (Spec.in_category "system") detectedPackages)
  /\ bloatwareCount (summarise detectedPackages)
     = length (filter Spec.is_bloatware_category detectedPackages)
  /\ (bloatwareCount (summarise detectedPackages)
      + suspiciousCount (summarise detectedPackages)
      + systemCount (summarise detectedPackages))%nat
     = length detectedPackages.
Proof.
  destruct (summarise_counters_eq detectedPackages) as (-> & -> & ->).
  repeat split; try done. apply length_three_filters.
Qed.

Lemma summarise_selected l :
  commands (summarise l) = concat (package_commands <$> filter Spec.is_selected l)
  /\ selectedCount (summarise l) = length (filter Spec.is_selected l).
Proof.
  unfold summarise. destruct (summarise_fold l
    {| commands := []; selectedCount := 0; bloatwareCount := 0;
       suspiciousCount := 0; systemCount := 0 |}) as [-> ->]. done.
Qed.


Section SummaryOfDetection.

Variable getPackageMetadata : string -> option Metadata.t.

(** Property X12.
    Right after a detection the selection is the bloatware: the selected
    counter equals the bloatware counter and the commands are the triples of
    the entries of the three bloatware categories, in order. *)
Theorem summarise_of_detection (pkgs : list string) (db : DeviceData) :
  let detected := detectBloatware getPackageMetadata pkgs db in
  selectedCount (summarise detected) = bloatwareCount (summarise detected)
  /\ commands (summarise detected)
     = concat (package_commands <$> filter Spec.is_bloatware_category detected)
  /\ length (commands (summarise detected))
     = (3 * bloatwareCount (summarise detected))%nat.
Proof.
  cbv zeta. set (detected := detectBloatware getPackageMetadata pkgs db).
  destruct (summarise_selected detected) as [Hc Hs].
  destruct (summarise_counters_eq detected) as (_ & _ & Hb).
  assert (filter Spec.is_selected detected = filter Spec.is_bloatware_category detected)
    as E.
  { apply filter_ext_in.
    eapply Forall_impl; [apply detectBloatware_selection_facts|].
    intros d (H5 & Hsel). unfold Spec.is_selected, Spec.is_bloatware_category.
    rewrite Hsel. unfold Spec.the_five_categories in H5.
    rewrite !elem_of_cons, elem_of_nil in *.
    destruct H5 as [->|[->|[->|[->|[->|[]]]]]]; intuition congruence. }
  rewrite Hc, Hs, Hb, E. split; [done|]. split; [done|].
  apply length_concat_commands.
Qed.

End SummaryOfDetection.

(** ** The clipboard text *)

Lemma has_LF_command pkg :
  Spec.has_LF (packageName pkg) = false ->
  Forall (fun c => c ≠ "" /\ Spec.has_LF c = false) (package_commands pkg).
Proof.
  intros H. unfold package_commands.
  repeat (apply Forall_cons_2; [split; [done|by rewrite has_LF_app, H]|]).
  apply Forall_nil_2.
Qed.

Lemma Forall_concat_fmap {A B} (P : B -> Prop) (f : A -> list B) (l : list A) :
  Forall (fun a => Forall P (f a)) l -> Forall P (concat (f <$> l)).
Proof.
  induction 1 as [|a l Ha _ IH]; simpl; [constructor|]. by apply Forall_app.
Qed.

(** Property X13.
    The text copied to the clipboard splits back, at its line feeds, into
    exactly the commands, whenever there is a command and no identifier
    holds a line feed (identifiers read by the normaliser never do). *)
Theorem commandsText_roundtrip (detectedPackages : list DetectedPackage) :
  Forall (fun p => Spec.has_LF (packageName p) = false) detectedPackages ->
  commands (summarise detectedPackages) ≠ [] ->
  JS.split_lines (commandsText (commands (summarise detectedPackages)))
  = commands (summarise detectedPackages).
Proof.
  intros Hlf Hne. unfold commandsText. apply split_join_lines; [done|].
  destruct (summarise_selected detectedPackages) as [-> _].
  apply Forall_concat_fmap. apply Forall_filter_keep.
  eapply Forall_impl; [exact Hlf|]. intros p Hp.
  eapply Forall_impl; [by apply has_LF_command|]. by intros c [_ ?].
Qed.

(** Property X13 at the sample data. *)
Lemma commandsText_roundtrip_witness :
  JS.split_lines (commandsText (commands (summarise [Sample.egg; Sample.chrome])))
  = commands (summarise [Sample.egg; Sample.chrome]).
Proof.
  apply commandsText_roundtrip.
  - repeat (apply Forall_cons_2; [reflexivity|]). apply Forall_nil_2.
  - vm_compute. discriminate.
Defined.

(** ** Select all and clear *)

Lemma package_commands_set_selected b p :
  package_commands (set_selected b p) = package_commands p.
Proof. done. Qed.

Lemma filter_selected_set_true (l : list DetectedPackage) :
  filter Spec.is_selected (set_selected true <$> l) = set_selected true <$> l.
Proof. apply filter_id, Forall_fmap, Forall_forall. by intros p _. Qed.

Lemma filter_selected_set_false (l : list DetectedPackage) :
  filter Spec.is_selected (set_selected false <$> l) = [].
Proof. apply filter_none, Forall_fmap, Forall_forall. by intros p _ ?. Qed.

(** Property X14.
    "Select All" yields the three commands of every package, in collection
    order; "Clear" yields no command at all and hides the command display.
    Both keep every field but [selected]. *)
Theorem select_all_and_clear (packages : list DetectedPackage) :
  let all := after_handler packages (handleSelectAll packages) in
  let none := after_handler packages (handleDeselectAll packages) in
  commands (summarise all) = concat (package_commands <$> packages)
  /\ selectedCount (summarise all) = length packages
  /\ commands (summarise none) = []
  /\ selectedCount (summarise none) = 0%nat
  /\ commands_shown (summarise none) = false
  /\ Forall2 Spec.same_but_selected packages all
  /\ Forall2 Spec.same_but_selected packages none.
Proof.
  cbv zeta. unfold handleSelectAll, handleDeselectAll. simpl.
  destruct (summarise_selected (set_selected true <$> packages)) as [-> ->].
  destruct (summarise_selected (set_selected false <$> packages)) as [Hc Hs].
  unfold commands_shown. rewrite Hc, Hs.
  rewrite filter_selected_set_true, filter_selected_set_false.
  rewrite <- list_fmap_compose, length_fmap. simpl.
  repeat split; try done;
    apply Forall2_fmap_same, Forall_forall; intros p _; apply same_but_selected_set.
Qed.

(** Property X15.
    Toggling the same package twice restores the collection. *)
Theorem handleTogglePackage_twice (packages : list DetectedPackage) (name : string) :
  let once := after_handler packages (handleTogglePackage packages name) in
  after_handler once (handleTogglePackage once name) = packages.
Proof.
  cbv zeta. unfold handleTogglePackage. simpl.
  rewrite <- list_fmap_compose. apply fmap_id_on, Forall_forall.
  intros p _. simpl. destruct (decide (packageName p = name)) as [E|E]; simpl.
  - rewrite decide_True by done. destruct p as [? ? ? ? ? ? ? []]; done.
  - by rewrite decide_False.
Qed.

(** ** The structure of the groups *)

Lemma groups_get_Some g k v :
  Groups.get g k = Some v ->
  exists g1 g2, g = g1 ++ (k, v) :: g2 /\ (k ∉ g1.*1)
                /\ forall v', Groups.set g k v' = g1 ++ (k, v') :: g2.
Proof.
  induction g as [|[k0 v0] g IH]; simpl; [done|].
  destruct (decide (k0 = k)) as [->|Hne].
  - intros [= ->]. exists [], g. split; [done|]. split; [apply not_elem_of_nil|done].
  - intros (g1 & g2 & -> & Hk & Hset)%IH. exists ((k0, v0) :: g1), g2.
    split; [done|]. split.
    + simpl. rewrite not_elem_of_cons. by split.
    + intros v'. simpl. by rewrite Hset.
Qed.

Lemma groups_get_None_inv g k : Groups.get g k = None -> k ∉ g.*1.
Proof.
  induction g as [|[k0 v0] g IH]; simpl; [intros _; apply not_elem_of_nil|].
  destruct (decide (k0 = k)); [done|]. intros H%IH.
  rewrite not_elem_of_cons. by split.
Qed.

Lemma group_step_ok g seen p :
  Spec.groups_ok g seen -> Spec.groups_ok (group_step g p) (seen ++ [p]).
Proof.
  intros (Hnd & Hperm & Hall). unfold group_step, Groups.has, Groups.push.
  fold (Spec.label_of p). set (k := Spec.label_of p).
  destruct (Groups.get g k) as [v|] eqn:E.
  - rewrite E. destruct (groups_get_Some g k v E) as (g1 & g2 & -> & Hk & Hset).
    rewrite Hset. split; [|split].
    + by rewrite !fmap_app, !fmap_cons in *.
    + rewrite !fmap_app, !fmap_cons, !concat_app, !concat_cons in *. simpl in *.
      rewrite <- Hperm. solve_Permutation.
    + rewrite !Forall_app, !Forall_cons in *. destruct Hall as (? & [? Hv] & ?).
      split; [done|]. split; [|done]. simpl in *. split; [by destruct v|].
      apply Forall_app. split; [done|]. by repeat constructor.
  - apply groups_get_None_inv in E.
    rewrite groups_set_new by done. rewrite groups_get_last by done.
    rewrite groups_set_last by done. split; [|split].
    + rewrite fmap_app. simpl. apply NoDup_app. split; [done|].
      split; [|apply NoDup_singleton]. intros x Hx ->%list_elem_of_singleton. done.
    + rewrite fmap_app, concat_app. simpl. by rewrite Hperm.
    + rewrite Forall_app. split; [done|]. repeat constructor; simpl; done.
Qed.

Lemma group_fold_ok l g seen :
  Spec.groups_ok g seen -> Spec.groups_ok (fold_left group_step l g) (seen ++ l).
Proof.
  revert g seen. induction l as [|p l IH]; intros g seen H; simpl.
  - by rewrite app_nil_r.
  - replace (seen ++ p :: l) with ((seen ++ [p]) ++ l) by by rewrite <- app_assoc.
    by apply IH, group_step_ok.
Qed.

Lemma groupByCategory_ok packages : Spec.groups_ok (groupByCategory packages) packages.
Proof.
  unfold groupByCategory.
  pose proof (group_fold_ok (JS.sort compare_priority packages) [] []) as H.
  destruct H as (H1 & H2 & H3).
  { split; [constructor|]. split; [done|constructor]. }
  split; [done|]. split; [|done]. rewrite H2. simpl.
  unfold compare_priority.
  apply (sort_Permutation (fun p => category_priority (category p))).
Qed.

(** Property X16.
    The groups partition the collection: no label occurs twice, no group is
    empty, every entry of a group carries the group's label, and the groups
    together hold each entry of the collection exactly as often as the
    collection does. *)
Theorem groupByCategory_partition (packages : list DetectedPackage) :
  NoDup (groupByCategory packages).*1
  /\ concat (groupByCategory packages).*2 ≡ₚ packages
  /\ Forall (fun kv => kv.2 ≠ [] /\ Forall (fun p => Spec.label_of p = kv.1) kv.2)
       (groupByCategory packages).
Proof. apply groupByCategory_ok. Qed.

(** ** Groups under a change of selection *)

Section GroupsUnderMap.

Variable f : DetectedPackage -> DetectedPackage.
Hypothesis f_category : forall p, category (f p) = category p.

Lemma sort_insert_fmap x l :
  JS.sort_insert compare_priority (f x) (f <$> l)
  = f <$> JS.sort_insert compare_priority x l.
Proof.
  induction l as [|y l IH]; [done|].
  rewrite fmap_cons. cbn [JS.sort_insert].
  unfold compare_priority at 1 3. rewrite !f_category.
  case_match; [done|]. by rewrite fmap_cons, IH.
Qed.

Lemma sort_fmap l :
  JS.sort compare_priority (f <$> l) = f <$> JS.sort compare_priority l.
Proof.
  induction l as [|x l IH]; [done|]. rewrite fmap_cons.
  change (JS.sort compare_priority (f x :: (f <$> l)))
    with (JS.sort_insert compare_priority (f x) (JS.sort compare_priority (f <$> l))).
  by rewrite IH, sort_insert_fmap.
Qed.

Lemma groups_get_map g k :
  Groups.get (Spec.map_groups f g) k
  = (fun v : list DetectedPackage => f <$> v) <$> Groups.get g k.
Proof.
  induction g as [|[k0 v0] g IH]; simpl; [done|]. by case_decide.
Qed.

Lemma groups_set_map g k v :
  Groups.set (Spec.map_groups f g) k (f <$> v)
  = Spec.map_groups f (Groups.set g k v).
Proof.
  induction g as [|[k0 v0] g IH]; simpl; [done|].
  case_decide; simpl; [done|]. unfold Spec.map_groups in *. by rewrite IH.
Qed.

Lemma group_step_map g p :
  group_step (Spec.map_groups f g) (f p) = Spec.map_groups f (group_step g p).
Proof.
  unfold group_step, Groups.has, Groups.push.
  assert (category_label (category (f p)) = category_label (category p)) as ->
    by by rewrite f_category.
  set (k := category_label (category p)).
  rewrite groups_get_map. destruct (Groups.get g k) as [v|] eqn:E; simpl.
  - rewrite groups_get_map, E. simpl.
    by rewrite <- groups_set_map, fmap_app.
  - change (@nil DetectedPackage) with (f <$> @nil DetectedPackage).
    rewrite groups_set_map, groups_get_map, groups_get_set, decide_True by done.
    simpl. rewrite groups_get_set, decide_True by done.
    change [f p] with (f <$> [p]). by rewrite groups_set_map.
Qed.

Lemma groupByCategory_fmap l :
  groupByCategory (f <$> l) = Spec.map_groups f (groupByCategory l).
Proof.
  unfold groupByCategory. rewrite sort_fmap.
  change (@nil (string * list DetectedPackage)) with (Spec.map_groups f []) at 1.
  generalize (@nil (string * list DetectedPackage)).
  induction (JS.sort compare_priority l) as [|p s IH]; intros g; simpl; [done|].
  by rewrite group_step_map, IH.
Qed.

End GroupsUnderMap.

Lemma same_but_selected_refl p : Spec.same_but_selected p p.
Proof. by repeat split. Qed.

Lemma map_groups_same f g :
  (forall p, Spec.same_but_selected p (f p)) ->
  Forall2 Spec.same_group g (Spec.map_groups f g).
Proof.
  intros Hf. unfold Spec.map_groups. apply Forall2_fmap_same, Forall_forall.
  intros [k v] _. split; [done|]. simpl.
  apply Forall2_fmap_same, Forall_forall. auto.
Qed.

Lemma groups_same_after_map f packages :
  (forall p, Spec.same_but_selected p (f p)) ->
  Forall2 Spec.same_group (groupByCategory packages)
    (groupByCategory (f <$> packages)).
Proof.
  intros Hf. rewrite groupByCategory_fmap.
  - by apply map_groups_same.
  - intros p. by destruct (Hf p) as (_ & _ & _ & _ & _ & _ & ?).
Qed.

(** Property X17.
    No selection handler moves an entry to another group or reorders the
    groups or their entries: after "toggle all in a category", "toggle one
    package", "Select All" or "Clear", the groups have the same labels in
    the same order and hold the same entries up to the [selected] flag. *)
Theorem groups_stable_under_selection (packages : list DetectedPackage) :
  (forall label target,
     Forall2 Spec.same_group (groupByCategory packages)
       (groupByCategory
          (after_handler packages (handleToggleAll packages label target))))
  /\ (forall name,
        Forall2 Spec.same_group (groupByCategory packages)
          (groupByCategory
             (after_handler packages (handleTogglePackage packages name))))
  /\ Forall2 Spec.same_group (groupByCategory packages)
       (groupByCategory (after_handler packages (handleSelectAll packages)))
  /\ Forall2 Spec.same_group (groupByCategory packages)
       (groupByCategory (after_handler packages (handleDeselectAll packages))).
Proof.
  split; [|split; [|split]].
  - intros label target.
    destruct (handleToggleAll_cases packages label target) as [[-> _]| ->]; simpl.
    + rewrite <- (list_fmap_id packages) at 2.
      apply groups_same_after_map. intros p. apply same_but_selected_refl.
    + apply groups_same_after_map. intros p.
      destruct (_ && _); [apply same_but_selected_set|apply same_but_selected_refl].
  - intros name. unfold handleTogglePackage. simpl.
    apply groups_same_after_map. intros p.
    case_decide; [apply same_but_selected_set|apply same_but_selected_refl].
  - unfold handleSelectAll. simpl. apply groups_same_after_map.
    intros p. apply same_but_selected_set.
  - unfold handleDeselectAll. simpl. apply groups_same_after_map.
    intros p. apply same_but_selected_set.
Qed.

(** ** Counters and search results per group *)

Lemma countmap_set_new m k v : k ∉ m.*1 -> CountMap.set m k v = m ++ [(k, v)].
Proof.
  induction m as [|[k0 v0] m IH]; simpl; [done|].
  rewrite not_elem_of_cons. intros [? ?]. rewrite decide_False by done.
  by rewrite IH.
Qed.

Lemma countmap_get_fmap (h : list DetectedPackage -> nat) (g : Groups.t) k :
  CountMap.get ((fun kv : string * list DetectedPackage => (kv.1, h kv.2)) <$> g) k
  = h <$> Groups.get g k.
Proof. induction g as [|[k0 v0] g IH]; simpl; [done|]. by case_decide. Qed.

Lemma groups_get_fmap (h : string -> list DetectedPackage -> list DetectedPackage)
    (g : Groups.t) k :
  Groups.get ((fun kv : string * list DetectedPackage => (kv.1, h kv.1 kv.2)) <$> g) k
  = h k <$> Groups.get g k.
Proof.
  induction g as [|[k0 v0] g IH]; simpl; [done|]. case_decide; by subst.
Qed.

Lemma count_fold (h : list DetectedPackage -> nat) (g : Groups.t) (m : CountMap.t) :
  NoDup (m.*1 ++ g.*1) ->
  fold_left (fun countMap '(cat, pkgs) => CountMap.set countMap cat (h pkgs)) g m
  = m ++ ((fun kv : string * list DetectedPackage => (kv.1, h kv.2)) <$> g).
Proof.
  revert m. induction g as [|[k v] g IH]; intros m Hnd; simpl.
  - by rewrite app_nil_r.
  - assert (k ∉ m.*1) as Hk.
    { apply NoDup_app in Hnd as (_ & Hd & _). intros Hin. apply (Hd k Hin).
      simpl. apply list_elem_of_here. }
    rewrite countmap_set_new by done. rewrite IH.
    + by rewrite <- app_assoc.
    + rewrite fmap_app. simpl. rewrite <- app_assoc. done.
Qed.

Lemma filtered_fold (h : string -> list DetectedPackage -> list DetectedPackage)
    (g m : Groups.t) :
  NoDup (m.*1 ++ g.*1) ->
  fold_left (fun filtered '(cat, pkgs) => Groups.set filtered cat (h cat pkgs)) g m
  = m ++ ((fun kv : string * list DetectedPackage => (kv.1, h kv.1 kv.2)) <$> g).
Proof.
  revert m. induction g as [|[k v] g IH]; intros m Hnd; simpl.
  - by rewrite app_nil_r.
  - assert (k ∉ m.*1) as Hk.
    { apply NoDup_app in Hnd as (_ & Hd & _). intros Hin. apply (Hd k Hin).
      simpl. apply list_elem_of_here. }
    rewrite groups_set_new by done. rewrite IH.
    + by rewrite <- app_assoc.
    + rewrite fmap_app. simpl. rewrite <- app_assoc. done.
Qed.

Lemma selectedCountByCategory_fmap (g : Groups.t) :
  NoDup g.*1 ->
  selectedCountByCategory g
  = (fun kv : string * list DetectedPackage =>
       (kv.1, length (filter Spec.is_selected kv.2))) <$> g.
Proof.
  intros Hnd. unfold selectedCountByCategory.
  by rewrite (count_fold (fun v => length (filter Spec.is_selected v)) g []).
Qed.

Lemma sum_list_counts (vs : list (list DetectedPackage)) :
  sum_list ((fun v => length (filter Spec.is_selected v)) <$> vs)
  = length (filter Spec.is_selected (concat vs)).
Proof.
  induction vs as [|v vs IH]; simpl; [done|].
  rewrite filter_app, length_app. f_equal. exact IH.
Qed.

(** Property X18.
    The counter shown on each group is the number of selected entries of
    that group (0 for a label that has no group), and the counters of all
    groups add up to the total shown above the list. *)
Theorem selectedCountByCategory_counts (packages : list DetectedPackage) :
  let groups := groupByCategory packages in
  let countMap := selectedCountByCategory groups in
  countMap.*1 = groups.*1
  /\ (forall k, category_selected_count countMap k
                = length (filter Spec.is_selected (default [] (Groups.get groups k))))
  /\ sum_list countMap.*2 = totalSelected packages.
Proof.
  cbv zeta. destruct (groupByCategory_ok packages) as (Hnd & Hperm & _).
  rewrite selectedCountByCategory_fmap by done. split; [|split].
  - by rewrite <- !list_fmap_compose.
  - intros k. unfold category_selected_count.
    rewrite (countmap_get_fmap (fun v => length (filter Spec.is_selected v))).
    by destruct (Groups.get (groupByCategory packages) k).
  - transitivity (sum_list ((fun v => length (filter Spec.is_selected v))
                              <$> (groupByCategory packages).*2)).
    + f_equal. rewrite <- !list_fmap_compose. by apply list_fmap_ext.
    + rewrite sum_list_counts. unfold totalSelected. by rewrite Hperm.
Qed.

Lemma filterPackages_no_term l : filterPackages l "" = l.
Proof. done. Qed.

Lemma filteredPackagesByCategory_fmap (g : Groups.t) terms :
  NoDup g.*1 ->
  filteredPackagesByCategory g terms
  = (fun kv : string * list DetectedPackage =>
       (kv.1, filterPackages kv.2 (search_term terms kv.1))) <$> g.
Proof.
  intros Hnd. unfold filteredPackagesByCategory.
  by rewrite (filtered_fold (fun cat v => filterPackages v (search_term terms cat)) g []).
Qed.

(** Property X19.
    The search results keep the groups and their order; each group is
    filtered by its own term only, so typing in one group's search box
    leaves the results of every other group as they were; and with no term
    typed the results are the groups themselves. *)
Theorem filteredPackagesByCategory_per_group (packages : list DetectedPackage)
    (terms : gmap string string) :
  let groups := groupByCategory packages in
  (filteredPackagesByCategory groups terms).*1 = groups.*1
  /\ (forall k, Groups.get (filteredPackagesByCategory groups terms) k
                = (fun v => filterPackages v (search_term terms k))
                    <$> Groups.get groups k)
  /\ (forall cat value k, k ≠ cat ->
        Groups.get (filteredPackagesByCategory groups
                      (handleSearchChange terms cat value)) k
        = Groups.get (filteredPackagesByCategory groups terms) k)
  /\ filteredPackagesByCategory groups ∅ = groups.
Proof.
  cbv zeta. destruct (groupByCategory_ok packages) as (Hnd & _ & _).
  rewrite !filteredPackagesByCategory_fmap by done.
  split; [by rewrite <- list_fmap_compose|]. split; [|split].
  - intros k.
    apply (groups_get_fmap (fun cat v => filterPackages v (search_term terms cat))).
  - intros cat value k Hk. rewrite filteredPackagesByCategory_fmap by done.
    rewrite (groups_get_fmap (fun c v => filterPackages v (search_term terms c))).
    rewrite (groups_get_fmap
               (fun c v => filterPackages v
                             (search_term (handleSearchChange terms cat value) c))).
    unfold search_term, handleSearchChange. by rewrite lookup_insert_ne.
  - rewrite <- (list_fmap_id (groupByCategory packages)) at 2.
    apply list_fmap_ext. intros _ [k v] _. simpl.
    unfold search_term. by rewrite lookup_empty.
Qed.

(** ** The expanded groups *)

Lemma expand_new_categories_app keys prev :
  expand_new_categories keys prev = prev ++ filter (fun k => k ∉ prev) keys.
Proof.
  unfold expand_new_categories.
  destruct (filter (fun k => k ∉ prev) keys); simpl; by rewrite ?app_nil_r.
Qed.

(** Property X20.
    The effect that follows the groups expands every group but "Other
    Installed Apps": the groups already expanded stay in front, in their
    order; a label is expanded afterwards exactly if it was before or is the
    label of a group other than "Other Installed Apps"; running the effect
    again changes nothing; and no label is entered twice. *)
Theorem expand_new_categories_result (packages : list DetectedPackage)
    (prev : list string) :
  let keys := categoryKeys (groupByCategory packages) in
  let expanded := expand_new_categories keys prev in
  prev `prefix_of` expanded
  /\ (forall k, k ∈ expanded
                <-> k ∈ prev
                    \/ (k ∈ (groupByCategory packages).*1
                        /\ k ≠ "Other Installed Apps"))
  /\ expand_new_categories keys expanded = expanded
  /\ (NoDup prev -> NoDup expanded).
Proof.
  cbv zeta. set (keys := categoryKeys (groupByCategory packages)).
  rewrite !expand_new_categories_app.
  assert (forall k, k ∈ keys <-> k ∈ (groupByCategory packages).*1
                                 /\ k ≠ "Other Installed Apps") as Hkeys.
  { intros k. unfold keys, categoryKeys. rewrite list_elem_of_filter. tauto. }
  assert (forall k, k ∈ prev ++ filter (fun k => k ∉ prev) keys
                    <-> k ∈ prev \/ k ∈ keys) as Hin.
  { intros k. rewrite elem_of_app, list_elem_of_filter.
    destruct (decide (k ∈ prev)); tauto. }
  split; [by eexists|]. split; [|split].
  - intros k. by rewrite Hin, Hkeys.
  - set (expanded := prev ++ filter (fun k => k ∉ prev) keys) in *.
    rewrite (filter_none (fun k => k ∉ expanded) keys); [by rewrite app_nil_r|].
    apply Forall_forall. intros k Hk Hn. apply Hn, Hin. by right.
  - intros Hnd. apply NoDup_app. split; [done|]. split.
    + intros k Hk [Hn _]%list_elem_of_filter. done.
    + apply NoDup_filter. unfold keys, categoryKeys. apply NoDup_filter.
      apply groupByCategory_ok.
Qed.

(** Property X20 at the sample data. *)
Lemma expand_new_categories_result_witness :
  NoDup (expand_new_categories
           (categoryKeys (groupByCategory [Sample.chrome; Sample.egg]))
           ["Generic Bloatware"]).
Proof.
  destruct (expand_new_categories_result [Sample.chrome; Sample.egg]
              ["Generic Bloatware"]) as (_ & _ & _ & Hnd).
  apply Hnd. apply NoDup_singleton.
Defined.

(** ** Searching within a group *)


Lemma app_empty_r s : s +:+ "" = s.
Proof. induction s as [|x s IH]; simpl; [done|]. by rewrite IH. Qed.

Lemma includes_nil t : JS.includes "" t = JS.startsWith "" t.
Proof. unfold JS.includes. apply orb_false_r. Qed.

Lemma includes_cons c s t :
  JS.includes (String c s) t = JS.startsWith (String c s) t || JS.includes s t.
Proof. done. Qed.

Lemma includes_occurs s t : JS.includes s t = true <-> Spec.occurs_in t s.
Proof.
  split.
  - induction s as [|c s IH].
    + rewrite includes_nil. intros [r E]%startsWith_begins. exists "", r. exact E.
    + rewrite includes_cons, orb_true_iff. intros [H|H].
      * apply startsWith_begins in H as [r E]. exists "", r. exact E.
      * destruct (IH H) as (a & b & ->). by exists (String c a), b.
  - intros (a & b & ->). induction a as [|c a IH].
    + assert (JS.startsWith (t +:+ b) t = true) as H
        by (apply startsWith_begins; by exists b).
      change ("" +:+ t +:+ b) with (t +:+ b).
      destruct (t +:+ b); [by rewrite includes_nil|].
      by rewrite includes_cons, H.
    + change (String c a +:+ t +:+ b) with (String c (a +:+ t +:+ b)).
      rewrite includes_cons, IH. apply orb_true_r.
Qed.

Lemma toLowerCase_app a b :
  JS.toLowerCase (a +:+ b) = JS.toLowerCase a +:+ JS.toLowerCase b.
Proof. induction a as [|c a IH]; simpl; [done|]. by rewrite IH. Qed.

Lemma occurs_in_toLowerCase t s :
  Spec.occurs_in t s -> Spec.occurs_in (JS.toLowerCase t) (JS.toLowerCase s).
Proof.
  intros (a & b & ->). exists (JS.toLowerCase a), (JS.toLowerCase b).
  by rewrite !toLowerCase_app.
Qed.

Lemma trim_occurs s : Spec.occurs_in (JS.trim s) s.
Proof.
  destruct (trimStart_split s) as (w1 & _ & E1).
  destruct (trimEnd_split (JS.trimStart s)) as (w2 & _ & E2).
  exists w1, w2. unfold JS.trim. by rewrite <- E2.
Qed.

Lemma includes_own_trim s :
  JS.includes (JS.toLowerCase s) (JS.toLowerCase (JS.trim s)) = true.
Proof. apply includes_occurs, occurs_in_toLowerCase, trim_occurs. Qed.

Lemma filterPackages_cases l term :
  (Spec.blank term = true /\ filterPackages l term = l)
  \/ (Spec.blank term = false
      /\ filterPackages l term
         = filter (fun p => matches_search (JS.toLowerCase (JS.trim term)) p = true) l).
Proof.
  unfold filterPackages, JS.truthy. destruct (Spec.blank term) eqn:E.
  - left. split; [done|]. apply trim_empty_iff in E. by rewrite decide_False by tauto.
  - right. split; [done|]. rewrite decide_True; [done|].
    rewrite trim_empty_iff. by rewrite E.
Qed.

(** Property X21.
    An empty or white-space-only search term shows the whole group; any
    term shows a selection of the group's entries in their order; and
    searching the results again for the same term changes nothing. *)
Theorem filterPackages_sublist (packages : list DetectedPackage) (term : string) :
  (Spec.blank term = true -> filterPackages packages term = packages)
  /\ filterPackages packages term `sublist_of` packages
  /\ filterPackages (filterPackages packages term) term
     = filterPackages packages term.
Proof.
  destruct (filterPackages_cases packages term) as [[Hb E]|[Hb E]].
  - rewrite !E. by repeat split.
  - split; [by rewrite Hb|]. rewrite E. split; [apply sublist_filter|].
    destruct (filterPackages_cases
                (filter (fun p => matches_search (JS.toLowerCase (JS.trim term)) p = true)
                   packages) term) as [[? _]|[_ ->]]; [congruence|].
    rewrite list_filter_filter. apply list_filter_iff. tauto.
Qed.

(** Property X21 at the sample data. *)
Lemma filterPackages_sublist_witness :
  filterPackages [Sample.egg; Sample.chrome] "   " = [Sample.egg; Sample.chrome].
Proof.
  destruct (filterPackages_sublist [Sample.egg; Sample.chrome] "   ") as [Hb _].
  apply Hb. reflexivity.
Defined.

(** Property X22.
    For a term that is not blank, an entry is shown exactly when the
    trimmed, lower-cased term occurs in its lower-cased identifier, display
    name or description. *)
Theorem filterPackages_matches (packages : list DetectedPackage) (term : string)
    (p : DetectedPackage) :
  Spec.blank term = false ->
  p ∈ filterPackages packages term
  <-> p ∈ packages
      /\ (Spec.occurs_in (JS.toLowerCase (JS.trim term)) (JS.toLowerCase (packageName p))
          \/ Spec.occurs_in (JS.toLowerCase (JS.trim term)) (JS.toLowerCase (appName p))
          \/ Spec.occurs_in (JS.toLowerCase (JS.trim term))
               (JS.toLowerCase (description p))).
Proof.
  intros Hb. destruct (filterPackages_cases packages term) as [[? _]|[_ ->]];
    [congruence|].
  rewrite list_elem_of_filter. unfold matches_search.
  rewrite !orb_true_iff, !includes_occurs. tauto.
Qed.

(** Property X22 at the sample data. *)
Lemma filterPackages_matches_witness :
  Sample.egg ∈ filterPackages [Sample.chrome; Sample.egg] " Android.EGG ".
Proof.
  apply filterPackages_matches; [reflexivity|]. split.
  - apply list_elem_of_further, list_elem_of_here.
  - left. exists "com.", "". reflexivity.
Defined.

(** Property X23.
    Searching for an entry's own identifier, display name or description
    always shows that entry, whatever white space or capitals the text
    holds. *)
Theorem filterPackages_finds_own (packages : list DetectedPackage)
    (p : DetectedPackage) :
  p ∈ packages ->
  p ∈ filterPackages packages (packageName p)
  /\ p ∈ filterPackages packages (appName p)
  /\ p ∈ filterPackages packages (description p).
Proof.
  intros Hp.
  assert (forall term,
            (matches_search (JS.toLowerCase (JS.trim term)) p = true) ->
            p ∈ filterPackages packages term) as H.
  { intros term Hm. destruct (filterPackages_cases packages term) as [[_ ->]|[_ ->]];
      [done|]. by apply list_elem_of_filter. }
  unfold matches_search in H.
  split; [|split]; apply H; rewrite includes_own_trim; by rewrite ?orb_true_r.
Qed.

(** Property X23 at the sample data. *)
Lemma filterPackages_finds_own_witness :
  Sample.chrome ∈ filterPackages [Sample.egg; Sample.chrome] (description Sample.chrome).
Proof.
  apply (filterPackages_finds_own [Sample.egg; Sample.chrome] Sample.chrome).
  apply list_elem_of_further, list_elem_of_here.
Defined.

(** Property X24.
    Searching does not look at the selection: filtering a collection whose
    flags were changed gives the filtered collection with the same change,
    so search and every selection handler commute. *)
Theorem filterPackages_ignores_selection (f : DetectedPackage -> DetectedPackage)
    (packages : list DetectedPackage) (term : string) :
  (forall p, Spec.same_but_selected p (f p)) ->
  filterPackages (f <$> packages) term = f <$> filterPackages packages term.
Proof.
  intros Hf.
  destruct (filterPackages_cases packages term) as [[Hb ->]|[Hb ->]];
    destruct (filterPackages_cases (f <$> packages) term) as [[Hb' ->]|[Hb' ->]];
    try congruence.
  rewrite filter_fmap. f_equal. apply list_filter_iff. intros p.
  destruct (Hf p) as (E1 & E2 & E3 & _). unfold matches_search.
  by rewrite E1, E2, E3.
Qed.

(** Property X24 at the sample data. *)
Lemma filterPackages_ignores_selection_witness :
  filterPackages (set_selected false <$> [Sample.egg; Sample.chrome]) "egg"
  = set_selected false <$> filterPackages [Sample.egg; Sample.chrome] "egg".
Proof.
  apply filterPackages_ignores_selection. intros p. apply same_but_selected_set.
Defined.

Lemma lowerUnit_ws c : JS.isWhiteSpace (JS.lowerUnit c) = JS.isWhiteSpace c.
Proof. by destruct c as [[] [] [] [] [] [] [] []]. Qed.

Lemma trimStart_toLowerCase s :
  JS.trimStart (JS.toLowerCase s) = JS.toLowerCase (JS.trimStart s).
Proof.
  induction s as [|c s IH]; simpl; [done|].
  rewrite lowerUnit_ws. by destruct (JS.isWhiteSpace c).
Qed.

Lemma trimEnd_toLowerCase s :
  JS.trimEnd (JS.toLowerCase s) = JS.toLowerCase (JS.trimEnd s).
Proof.
  induction s as [|c s IH]; simpl; [done|].
  rewrite IH, lowerUnit_ws.
  destruct (JS.trimEnd s); simpl; [by destruct (JS.isWhiteSpace c)|done].
Qed.

Lemma trim_toLowerCase s : JS.trim (JS.toLowerCase s) = JS.toLowerCase (JS.trim s).
Proof. unfold JS.trim. by rewrite trimStart_toLowerCase, trimEnd_toLowerCase. Qed.

Lemma blank_toLowerCase s : Spec.blank (JS.toLowerCase s) = Spec.blank s.
Proof. induction s as [|c s IH]; simpl; [done|]. by rewrite lowerUnit_ws, IH. Qed.

(** Property X25.
    The search is insensitive to the capitals of the term: two terms with
    the same lower-casing give the same results. *)
Theorem filterPackages_term_case (packages : list DetectedPackage)
    (term term' : string) :
  JS.toLowerCase term = JS.toLowerCase term' ->
  filterPackages packages term = filterPackages packages term'.
Proof.
  intros E.
  assert (Spec.blank term = Spec.blank term') as Hb
    by by rewrite <- (blank_toLowerCase term), E, blank_toLowerCase.
  assert (JS.toLowerCase (JS.trim term) = JS.toLowerCase (JS.trim term')) as Hs
    by by rewrite <- !trim_toLowerCase, E.
  destruct (filterPackages_cases packages term) as [[H ->]|[H ->]];
    destruct (filterPackages_cases packages term') as [[H' ->]|[H' ->]];
    try congruence. by rewrite Hs.
Qed.

(** Property X25 at the sample data. *)
Lemma filterPackages_term_case_witness :
  filterPackages [Sample.egg; Sample.chrome] "EGG"
  = filterPackages [Sample.egg; Sample.chrome] "egg".
Proof. apply filterPackages_term_case. reflexivity. Defined.

(** ** Running the detection again *)

Section AppMore.

Variable getPackageMetadata : string -> option Metadata.t.
Variable bloatwareData : DeviceData.

Lemma handleDetectBloatware_cases st :
  (Spec.blank (packageInput st) = true
   /\ parsePackageList (packageInput st) = []
   /\ handleDetectBloatware getPackageMetadata bloatwareData st
      = {| packageInput := packageInput st;
           detectedPackages := detectedPackages st;
           error := Some "Please paste your package list";
           isProcessing := isProcessing st; currentStep := currentStep st |})
  \/ (Spec.blank (packageInput st) = false
      /\ parsePackageList (packageInput st) = []
      /\ handleDetectBloatware getPackageMetadata bloatwareData st
         = {| packageInput := packageInput st;
              detectedPackages := detectedPackages st;
              error := Some "No valid packages found in the input";
              isProcessing := false; currentStep := currentStep st |})
  \/ (parsePackageList (packageInput st) ≠ []
      /\ handleDetectBloatware getPackageMetadata bloatwareData st
         = {| packageInput := packageInput st;
              detectedPackages :=
                detectBloatware getPackageMetadata
                  (parsePackageList (packageInput st)) bloatwareData;
              error := None; isProcessing := false; currentStep := 2 |}).
Proof.
  unfold handleDetectBloatware, handleDetectBloatware_trace, JS.truthy.
  destruct (Spec.blank (packageInput st)) eqn:Hb.
  - left. apply trim_empty_iff in Hb. rewrite decide_False by tauto.
    split; [done|]. split; [by apply trim_empty_parse|done].
  - right. assert (JS.trim (packageInput st) ≠ "") as Ht.
    { rewrite trim_empty_iff. by rewrite Hb. }
    rewrite decide_True by done.
    destruct (parsePackageList (packageInput st)) as [|x l] eqn:E; [by left|by right].
Qed.

(** Property X26.
    Detection is repeatable and starts from the input alone: running the
    handler a second time leaves the state as the first run left it, and
    when the normaliser finds an identifier the results are shown and the
    collection depends only on the input, whatever collection or selection
    was there before. *)
Theorem handleDetectBloatware_rerun (st : AppState) :
  handleDetectBloatware getPackageMetadata bloatwareData
    (handleDetectBloatware getPackageMetadata bloatwareData st)
  = handleDetectBloatware getPackageMetadata bloatwareData st
  /\ (parsePackageList (packageInput st) ≠ [] ->
      results_shown (handleDetectBloatware getPackageMetadata bloatwareData st) = true
      /\ forall st', packageInput st' = packageInput st ->
           detectedPackages (handleDetectBloatware getPackageMetadata bloatwareData st')
           = detectedPackages (handleDetectBloatware getPackageMetadata bloatwareData st)).
Proof.
  split.
  - destruct (handleDetectBloatware_cases st)
      as [(Hb & Hp & E)|[(Hb & Hp & E)|[Hp E]]];
      rewrite E;
      match goal with |- handleDetectBloatware _ _ ?s = _ =>
        destruct (handleDetectBloatware_cases s)
          as [(Hb' & Hp' & E')|[(Hb' & Hp' & E')|[Hp' E']]]
      end; simpl in *; try congruence; by rewrite E'.
  - intros Hp.
    destruct (handleDetectBloatware_cases st)
      as [(_ & Hp' & _)|[(_ & Hp' & _)|[_ E]]]; [done..|].
    rewrite E. split.
    + unfold results_shown. simpl.
      destruct (detectBloatware _ _ _) eqn:Ed; [|done].
      by apply detectBloatware_nil in Ed.
    + intros st' Hin.
      destruct (handleDetectBloatware_cases st')
        as [(_ & Hp' & _)|[(_ & Hp' & _)|[_ E']]]; rewrite Hin in *; [done..|].
      by rewrite E'.
Qed.

End AppMore.

(** Property X26 at the sample data. *)
Lemma handleDetectBloatware_rerun_witness :
  results_shown
    (handleDetectBloatware Sample.no_metadata Sample.db
       {| packageInput := Sample.adb_output; detectedPackages := [];
          error := None; isProcessing := false; currentStep := 1 |})
  = true.
Proof.
  destruct (handleDetectBloatware_rerun Sample.no_metadata Sample.db
              {| packageInput := Sample.adb_output; detectedPackages := [];
                 error := None; isProcessing := false; currentStep := 1 |})
    as [_ H].
  apply H. simpl. rewrite parse_adb_output. discriminate.
Defined.

(** ** The two prefix lists never both match *)

Lemma begins_with_both s p q :
  Spec.begins_with s p -> Spec.begins_with s q ->
  String.prefix p q = true \/ String.prefix q p = true.
Proof.
  revert s q. induction p as [|a p IH]; intros s q Hp Hq.
  - left. by destruct q.
  - destruct q as [|b q]; [by right|].
    destruct Hp as [r ->], Hq as [r' E]. simpl in E. injection E as -> E.
    destruct (IH (p +:+ r) q) as [H|H]; [by exists r|by exists r'| |];
      simpl; destruct (ascii_dec b b); try done; auto.
Qed.

Lemma prefix_lists_apart :
  forallb (fun p => forallb (fun q => negb (String.prefix p q || String.prefix q p))
                      CHIPSET_PREFIXES) BRAND_PREFIXES = true.
Proof. vm_compute. reflexivity. Qed.

Lemma prefix_match_exclusive name :
  Spec.prefix_match BRAND_PREFIXES name ->
  Spec.prefix_match CHIPSET_PREFIXES name -> False.
Proof.
  intros (p & Hp & Hbp) (q & Hq & Hbq).
  pose proof prefix_lists_apart as H. rewrite forallb_forall in H.
  apply list_elem_of_In in Hp, Hq. specialize (H p Hp).
  rewrite forallb_forall in H. specialize (H q Hq).
  apply negb_true_iff, orb_false_iff in H as [H1 H2].
  destruct (begins_with_both _ p q Hbp Hbq); congruence.
Qed.

(** Property X27.
    No identifier matches a brand prefix and a chipset prefix at once, so
    the order of the two tests never decides a category: the category is
    [brand] exactly when a brand prefix matches, [chipset] exactly when a
    chipset prefix matches, and [generic] exactly when none does. *)
Theorem categorisePackage_exclusive (name : string) :
  ~ (Spec.prefix_match BRAND_PREFIXES name /\ Spec.prefix_match CHIPSET_PREFIXES name)
  /\ (categorisePackage name = "brand" <-> Spec.prefix_match BRAND_PREFIXES name)
  /\ (categorisePackage name = "chipset" <-> Spec.prefix_match CHIPSET_PREFIXES name)
  /\ (categorisePackage name = "generic"
      <-> ~ Spec.prefix_match BRAND_PREFIXES name
          /\ ~ Spec.prefix_match CHIPSET_PREFIXES name).
Proof.
  pose proof (prefix_match_exclusive name) as Hx.
  destruct (categorisePackage_rules (fun _ => None) name) as (Hb & Hc & Hg).
  assert (forall l, Spec.prefix_match l name \/ ~ Spec.prefix_match l name) as Hdec.
  { intros l.
    destruct (existsb (fun p => JS.startsWith (JS.toLowerCase name) p) l) eqn:E.
    - left. by apply existsb_startsWith.
    - right. rewrite <- existsb_startsWith. by rewrite E. }
  destruct (Hdec BRAND_PREFIXES) as [B|B], (Hdec CHIPSET_PREFIXES) as [C|C].
  - tauto.
  - rewrite (Hb B). intuition discriminate.
  - rewrite (Hc B C). intuition discriminate.
  - rewrite (Hg B C). intuition discriminate.
Qed.

(** ** The research link of a package *)








Example getGoogleSearchUrl_escapes :
  getGoogleSearchUrl "a&b=c d"
  = "https://www.google.com/search?q=android%20a%26b%3Dc%20d%20package".
Proof. vm_compute. reflexivity. Qed.
